(** * moodle_scan.py: link resolution and incremental change detection

    A shallow embedding of the scanning engine of [src/moodle_scan.py]
    (helpers [_course_display_name] ... [_normalize_link_for_print] and
    [scan_all]) and the properties stated for it.

    Python [str] values are lists of Unicode code points.  Everything the
    script imports from outside the repository (the Unicode character
    database behind [str.strip], [re] and [str.lower]; [urllib.parse];
    [bs4]; [email.utils]; [zoneinfo]; [requests]) is an interface whose
    operations are taken as given; a small concrete instance of each is
    provided so that every definition can be run. *)

From Stdlib Require Import String Ascii ZArith NArith Lia ZifyBool.
From stdpp Require Import gmap sets list sorting.

Set Warnings "-clear-no-such-hyp".

Local Open Scope N_scope.

(** ** Python strings *)

Abbreviation str := (list N).

(** An ASCII literal as a Python string. *)
Definition u (x : string) : str :=
  map N_of_ascii (list_ascii_of_string x).

(** [p == q] on strings. *)
Definition str_eqb (p q : str) : bool := bool_decide (p = q).

(** [p < q] on strings: lexicographic on code points. *)
Fixpoint str_ltb (p q : str) : bool :=
  match p, q with
  | _, [] => false
  | [], _ :: _ => true
  | a :: p', b :: q' => (a <? b) || ((a =? b) && str_ltb p' q')
  end.

(** [s.startswith(p)]. *)
Fixpoint starts_with (p s : str) : bool :=
  match p, s with
  | [], _ => true
  | _ :: _, [] => false
  | a :: p', b :: s' => (a =? b) && starts_with p' s'
  end.

(** [p in s]: [p] occurs in [s] as a contiguous substring. *)
Fixpoint contains (p s : str) : bool :=
  starts_with p s ||
  match s with
  | [] => false
  | _ :: s' => contains p s'
  end.

(** The split of [s] around the leftmost occurrence of [sep], if any. *)
Fixpoint split_once (sep s : str) : option (str * str) :=
  if starts_with sep s then Some ([], drop (length sep) s)
  else match s with
       | [] => None
       | c :: s' =>
           match split_once sep s' with
           | Some (l, r) => Some (c :: l, r)
           | None => None
           end
       end.

(** [s.split(sep, 1)]: one or two pieces. *)
Definition split1 (sep s : str) : list str :=
  match split_once sep s with
  | Some (l, r) => [l; r]
  | None => [s]
  end.

(** [s.rsplit("/", 1)[-1]]: what follows the last occurrence of [c]
    (all of [s] when [c] does not occur). *)
Fixpoint after_last (c : N) (s : str) : str :=
  match s with
  | [] => []
  | d :: s' =>
      if bool_decide (c ∈ s') then after_last c s'
      else if d =? c then s' else s
  end.

(** [list(dict.fromkeys(l))]: duplicates removed, first occurrence kept. *)
Fixpoint fromkeys (seen l : list str) : list str :=
  match l with
  | [] => []
  | x :: l' =>
      if bool_decide (x ∈ seen) then fromkeys seen l'
      else x :: fromkeys (x :: seen) l'
  end.

(** Python truthiness of a [str | None] value: [None] and [""] are false. *)
Definition truthy (o : option str) : bool :=
  match o with
  | Some (_ :: _) => true
  | _ => false
  end.

(** [a or b] on [str | None] values. *)
Definition py_or (a b : option str) : option str :=
  if truthy a then a else b.

(** ** The Unicode character database *)

Class Unicode := {
  (** [str.isspace] on one code point: what [str.strip()] removes. *)
  isspace : N → bool;
  (** what the pattern [\d] matches: category Nd. *)
  isdecimal : N → bool;
  (** [str.lower]. *)
  lower : str → str;
  (** U+0020 is white space, and no decimal digit is. *)
  isspace_space : isspace 32 = true;
  isdecimal_not_space : ∀ c, isdecimal c = true → isspace c = false
}.

(** The white space of CPython ([_PyUnicode_IsWhitespace]). *)
Definition py_isspace (c : N) : bool :=
  ((9 <=? c) && (c <=? 13)) || ((28 <=? c) && (c <=? 32)) ||
  (c =? 0x85) || (c =? 0xA0) || (c =? 0x1680) ||
  ((0x2000 <=? c) && (c <=? 0x200A)) ||
  (c =? 0x2028) || (c =? 0x2029) || (c =? 0x202F) || (c =? 0x205F) ||
  (c =? 0x3000).

(** Decimal digits of the Basic Latin and Arabic blocks. *)
Definition basic_isdecimal (c : N) : bool :=
  ((48 <=? c) && (c <=? 57)) || ((0x660 <=? c) && (c <=? 0x669)).

(** Lower-casing of the Basic Latin block. *)
Definition basic_lower (s : str) : str :=
  map (λ c, if (65 <=? c) && (c <=? 90) then c + 32 else c) s.

#[export] Instance unicode_basic : Unicode := {|
  isspace := py_isspace;
  isdecimal := basic_isdecimal;
  lower := basic_lower;
  isspace_space := eq_refl;
  isdecimal_not_space :=
    ltac:(intros c; unfold basic_isdecimal, py_isspace; lia)
|}.

Section Strings.
Context {U : Unicode}.

Fixpoint lstrip (s : str) : str :=
  match s with
  | [] => []
  | c :: s' => if isspace c then lstrip s' else s
  end.

Definition rstrip (s : str) : str := reverse (lstrip (reverse s)).

(** [s.strip()]. *)
Definition strip (s : str) : str := lstrip (rstrip s).

(** [re.fullmatch(r"\d{6,}", x)] succeeds. *)
Definition fullmatch_d6 (x : str) : bool :=
  (6 <=? length x)%nat && forallb isdecimal x.

Definition SEP : str := Eval vm_compute in u " - ".

(** [_course_display_name], lines 86-96.  [raw or ""] is [raw] for a
    string.  The unpacking [left, right = ...] has two pieces whenever
    the guard [" - " in s] holds ([split1_two] below). *)
Definition _course_display_name (raw : str) : str :=
  let s := strip raw in
  if contains SEP s then
    match split1 SEP s with
    | [left_; right_] =>
        if fullmatch_d6 (strip left_) then strip right_ else s
    | _ => s
    end
  else s.

End Strings.

(** ** Exceptions *)

(** The outcome of a call that may raise: a value, or some exception
    derived from [Exception]. *)
Inductive result (A : Type) : Type :=
  | Ok (a : A)
  | Raised.
Arguments Ok {A} a.
Arguments Raised {A}.

(** [try: body except Exception: handler] for code without side effects. *)
Definition catch {A} (body : result A) (handler : result A) : result A :=
  match body with
  | Ok a => Ok a
  | Raised => handler
  end.

Definition and_then {A B} (r : result A) (k : A → result B) : result B :=
  match r with
  | Ok a => k a
  | Raised => Raised
  end.

(** ** datetime *)

(** The two kinds of [tzinfo] the script meets: a fixed offset
    ([datetime.timezone]; [timezone.utc] is [TzFixed 0]) and
    [TZ_IL = ZoneInfo("Asia/Jerusalem")].  Offsets are in microseconds. *)
Inductive tzinfo : Type :=
  | TzFixed (offset : Z)
  | TzIL.

(** An aware [datetime]: the wall-clock fields (year ... microsecond) as
    microseconds since 0001-01-01T00:00:00, the [tzinfo] and [fold]. *)
Record datetime : Type := {
  dt_wall : Z;
  dt_tz : tzinfo;
  dt_fold : bool
}.

(** [datetime.min <= d <= datetime.max] on the wall-clock fields;
    [date.max.toordinal()] is 3652059. *)
Definition MAX_WALL : Z := 3652059 * 86400 * 1000000.

Definition in_range (wall : Z) : bool :=
  ((0 <=? wall) && (wall <? MAX_WALL))%Z.

(** What [zoneinfo] knows about Asia/Jerusalem. *)
Class ZoneInfo := {
  (** [TZ_IL.utcoffset(d)] from the wall-clock fields and [fold] of [d]. *)
  il_utcoffset : Z → bool → Z;
  (** [TZ_IL.fromutc]: offset and [fold] in force at a UTC instant. *)
  il_offset_at : Z → Z;
  il_fold_at : Z → bool
}.

(** Israel Standard Time all year round (UTC+2), no daylight saving. *)
#[export] Instance zoneinfo_standard : ZoneInfo := {|
  il_utcoffset := λ _ _, (7200 * 1000000)%Z;
  il_offset_at := λ _, (7200 * 1000000)%Z;
  il_fold_at := λ _, false
|}.

(** What [email.utils.parsedate_to_datetime] returns: the date and time
    fields, and the zone in seconds; the zone is [None] (a naive
    [datetime]) when the text carries no offset or the offset "-0000". *)
Record parsed_date : Type := {
  pd_wall : Z;
  pd_offset : option Z
}.

Class EmailUtils := {
  (** raises on text that is not a date. *)
  parsedate_to_datetime : str → result parsed_date
}.

(** ** urllib.parse *)

Class Urllib := {
  (** [urlparse(url).path]. *)
  urlparse_path : str → str;
  unquote : str → str
}.

(** ** bs4 *)

(** An [<a>] element that has an [href] attribute: [a.get("href")] and
    [a.get_text(" ", strip=True)]. *)
Record anchor : Type := {
  a_href : str;
  a_text : str
}.

Class Bs4 := {
  (** [BeautifulSoup(html, "html.parser").select("a[href]")]: the anchors
      with an [href] attribute, in document order. *)
  select_a_href : str → list anchor
}.

(** ** requests *)

Record Response : Type := {
  status_code : Z;
  url : str;
  (** [r.headers.get(name)]; [name in r.headers] is [headers name ≠ None]. *)
  headers : str → option str;
  text : str
}.

(** [bool(r)] is [r.ok]: no 4xx or 5xx status. *)
Definition response_ok (r : Response) : bool :=
  negb ((400 <=? status_code r) && (status_code r <? 600))%Z.

(** The session and whatever is behind it.  A request may answer or raise
    (timeout, connection error, ...), and changes the world either way. *)
Class Requests := {
  World : Type;
  (** [session.head(url, allow_redirects=True, timeout=30)]. *)
  session_head : str → World → result Response * World;
  (** [session.get(url, allow_redirects=True, timeout=..., stream=...)]. *)
  session_get : str → bool → World → result Response * World
}.

(** The requests a run has issued, oldest first. *)
Inductive NetCall : Type :=
  | CallHead (url : str)
  | CallGet (url : str) (stream : bool).

Section Net.
Context {R : Requests}.

Record Net : Type := {
  net_world : World;
  net_calls : list NetCall
}.

(** Code that talks to the session: it may raise, and it changes the
    world and the list of requests issued. *)
Definition M (A : Type) : Type := Net → result A * Net.

Definition ret {A} (a : A) : M A := λ n, (Ok a, n).

Definition bind {A B} (m : M A) (k : A → M B) : M B :=
  λ n, match m n with
       | (Ok a, n') => k a n'
       | (Raised, n') => (Raised, n')
       end.

(** [try: body except Exception: handler]. *)
Definition try_except {A} (body handler : M A) : M A :=
  λ n, match body n with
       | (Ok a, n') => (Ok a, n')
       | (Raised, n') => handler n'
       end.

Definition lift {A} (r : result A) : M A := λ n, (r, n).

(** [for x in l: st = body x st]. *)
Fixpoint for_each {A S} (l : list A) (body : A → S → M S) (st : S) : M S :=
  match l with
  | [] => ret st
  | x :: l' => bind (body x st) (for_each l' body)
  end.

Definition do_head (url : str) : M Response :=
  λ n, let '(r, w) := session_head url (net_world n) in
       (r, {| net_world := w; net_calls := net_calls n ++ [CallHead url] |}).

Definition do_get (url : str) (stream : bool) : M Response :=
  λ n, let '(r, w) := session_get url stream (net_world n) in
       (r, {| net_world := w;
              net_calls := net_calls n ++ [CallGet url stream] |}).

End Net.

Notation "'let!' x := m 'in' k" := (bind m (λ x, k))
  (at level 10, x name, m at level 100, k at level 200,
   format "'[v' 'let!'  x  :=  m  'in' '/' k ']'").

(** ** The scanning engine *)

(** [FoundFile], lines 73-79. *)
Record FoundFile : Type := {
  course_name_raw : str;
  course_name_display : str;
  file_name : str;
  last_modified_il : datetime;
  link : str
}.

Definition PLUGINFILE_URL : str :=
  Eval vm_compute in u "moodle.tau.ac.il/pluginfile.php/".
Definition RESOURCE_URL : str :=
  Eval vm_compute in u "moodle.tau.ac.il/mod/resource/view.php".
Definition FOLDER_URL : str :=
  Eval vm_compute in u "moodle.tau.ac.il/mod/folder/view.php".
Definition ASSIGN_URL : str :=
  Eval vm_compute in u "moodle.tau.ac.il/mod/assign/view.php".
Definition PLUGINFILE_PHP : str := Eval vm_compute in u "pluginfile.php".
Definition RESOURCE_VIEW : str := Eval vm_compute in u "mod/resource/view.php".
Definition FOLDER_VIEW : str := Eval vm_compute in u "mod/folder/view.php".
Definition ASSIGN_VIEW : str := Eval vm_compute in u "mod/assign/view.php".
Definition REDIRECT_EQ : str := Eval vm_compute in u "redirect=".
Definition REDIRECT_1 : str := Eval vm_compute in u "redirect=1".
Definition QUESTION : str := Eval vm_compute in u "?".
Definition AMPERSAND : str := Eval vm_compute in u "&".
Definition LAST_MODIFIED : str := Eval vm_compute in u "Last-Modified".
Definition last_modified : str := Eval vm_compute in u "last-modified".
Definition SLASH : N := 47.

(** [not s] for a string. *)
Definition is_empty (s : str) : bool :=
  match s with
  | [] => true
  | _ :: _ => false
  end.

(** [sorted(l)] and [l.sort()]: a stable sort that only asks [x < y]. *)
Fixpoint insert_sorted {A} (lt : A → A → bool) (x : A) (l : list A) : list A :=
  match l with
  | [] => [x]
  | y :: l' => if lt y x then y :: insert_sorted lt x l' else x :: l
  end.

Fixpoint sorted {A} (lt : A → A → bool) (l : list A) : list A :=
  match l with
  | [] => []
  | x :: l' => insert_sorted lt x (sorted lt l')
  end.

(** [_normalize_link_for_print], lines 224-231. *)
Definition _normalize_link_for_print (original_link pluginfile_link : str) : str :=
  if contains RESOURCE_VIEW original_link
     || contains FOLDER_VIEW original_link
     || contains ASSIGN_VIEW original_link
  then original_link
  else pluginfile_link.

(** The classification step of [_extract_activity_links_from_course_html],
    lines 175-188, for one anchor. *)
Definition classify_href (href : str) (sets : gset str * gset str)
  : gset str * gset str :=
  let '(pluginfiles, activity_pages) := sets in
  if is_empty href then sets
  else if contains PLUGINFILE_URL href then
    ({[href]} ∪ pluginfiles, activity_pages)
  else if contains RESOURCE_URL href then
    (pluginfiles, {[href]} ∪ activity_pages)
  else if contains FOLDER_URL href then
    (pluginfiles, {[href]} ∪ activity_pages)
  else if contains ASSIGN_URL href then
    (pluginfiles, {[href]} ∪ activity_pages)
  else sets.

Section Engine.
Context {U : Unicode} {L : Urllib} {B : Bs4} {E : EmailUtils}
        {T : ZoneInfo} {R : Requests}.

(** *** Helpers *)

(** [_safe_filename_from_url], lines 99-103. *)
Definition _safe_filename_from_url (url : str) : str :=
  let path := urlparse_path url in
  let name := after_last SLASH path in
  let name := strip (unquote name) in
  if is_empty name then url else name.

(** [d.utcoffset()]. *)
Definition utcoffset (d : datetime) : Z :=
  match dt_tz d with
  | TzFixed o => o
  | TzIL => il_utcoffset (dt_wall d) (dt_fold d)
  end.

(** [d.astimezone(TZ_IL)]: [d] itself when its zone is [TZ_IL];
    otherwise [TZ_IL.fromutc(d - d.utcoffset())], where stepping outside
    [datetime.min .. datetime.max] raises [OverflowError]. *)
Definition astimezone_il (d : datetime) : result datetime :=
  match dt_tz d with
  | TzIL => Ok d
  | TzFixed o =>
      let utc := (dt_wall d - o)%Z in
      if in_range utc then
        let wall := (utc + il_offset_at utc)%Z in
        if in_range wall then
          Ok {| dt_wall := wall; dt_tz := TzIL; dt_fold := il_fold_at utc |}
        else Raised
      else Raised
  end.

(** Ordering of aware datetimes: the wall-clock fields when both carry
    the same [tzinfo], the UTC instants otherwise. *)
Definition dt_compare (a b : datetime) : comparison :=
  match dt_tz a, dt_tz b with
  | TzIL, TzIL => (dt_wall a ?= dt_wall b)%Z
  | _, _ => (dt_wall a - utcoffset a ?= dt_wall b - utcoffset b)%Z
  end.

(** [a > b]. *)
Definition dt_gtb (a b : datetime) : bool :=
  match dt_compare a b with Gt => true | _ => false end.

(** [a < b]. *)
Definition dt_ltb (a b : datetime) : bool :=
  match dt_compare a b with Lt => true | _ => false end.

(** The offset of [d] depends on its [fold]. *)
Definition fold_matters (d : datetime) : bool :=
  match dt_tz d with
  | TzFixed _ => false
  | TzIL =>
      negb (il_utcoffset (dt_wall d) (dt_fold d)
            =? il_utcoffset (dt_wall d) (negb (dt_fold d)))%Z
  end.

(** [a == b]: across zones a time whose offset depends on [fold]
    equals nothing. *)
Definition dt_eqb (a b : datetime) : bool :=
  match dt_tz a, dt_tz b with
  | TzIL, TzIL => (dt_wall a =? dt_wall b)%Z
  | _, _ =>
      negb (fold_matters a || fold_matters b)
      && (dt_wall a - utcoffset a =? dt_wall b - utcoffset b)%Z
  end.

(** [_parse_http_last_modified], lines 106-116. *)
Definition _parse_http_last_modified (headers : str → option str)
  : result (option datetime) :=
  let lm := py_or (headers LAST_MODIFIED) (headers last_modified) in
  match lm with
  | Some (c :: lm') =>
      catch
        (and_then (parsedate_to_datetime (c :: lm')) (λ p,
           let dt :=
             match pd_offset p with
             | None =>
                 {| dt_wall := pd_wall p; dt_tz := TzFixed 0;
                    dt_fold := false |}
             | Some secs =>
                 {| dt_wall := pd_wall p;
                    dt_tz := TzFixed (secs * 1000000);
                    dt_fold := false |}
             end in
           and_then (astimezone_il dt) (λ d, Ok (Some d))))
        (Ok None)
  | _ => Ok None
  end.

(** [_http_head_follow], lines 137-144. *)
Definition _http_head_follow (url : str) : M (option Response) :=
  try_except
    (let! r := do_head url in
     if (status_code r =? 403)%Z || (status_code r =? 405)%Z
        || ((400 <=? status_code r)%Z
            && negb (bool_decide (is_Some (headers r LAST_MODIFIED))))
     then let! r := do_get url true in ret (Some r)
     else ret (Some r))
    (ret None).

(** [_http_get_html], lines 147-154. *)
Definition _http_get_html (url : str) : M (option str) :=
  try_except
    (let! r := do_get url false in
     if (400 <=? status_code r)%Z then ret None
     else ret (Some (text r)))
    (ret None).

(** [_extract_pluginfile_links_from_html], lines 157-166:
    [select("a[href*='pluginfile.php']")] keeps the anchors whose [href]
    contains the text. *)
Definition _extract_pluginfile_links_from_html (html : str)
  : list (str * str) :=
  foldl (λ out a,
           let href := a_href a in
           if is_empty href then out
           else
             let text := strip (a_text a) in
             out ++ [(href, text)])
        []
        (filter (λ a, contains PLUGINFILE_PHP (a_href a) = true)
                (select_a_href html)).

(** [_extract_activity_links_from_course_html], lines 169-190. *)
Definition _extract_activity_links_from_course_html (html : str)
  : gset str * gset str :=
  foldl (λ sets a, classify_href (a_href a) sets) (∅, ∅)
        (select_a_href html).

(** The probe of lines 196-200. *)
Definition redirect_probe_url (view_url : str) : str :=
  if negb (contains REDIRECT_EQ view_url) then
    let joiner :=
      if contains QUESTION view_url then AMPERSAND else QUESTION in
    view_url ++ joiner ++ REDIRECT_1
  else view_url.

(** Lines 207-214 of [_resolve_resource_view_to_file]: the scrape. *)
Definition scrape_view (view_url : str) : M (list str) :=
  let! html := _http_get_html view_url in
  match html with
  | Some (c :: html') =>
      let urls :=
        foldl (λ urls '(href, _txt), urls ++ [href]) []
              (_extract_pluginfile_links_from_html (c :: html')) in
      ret (fromkeys [] urls)
  | _ => ret []
  end.

(** [_resolve_resource_view_to_file], lines 193-214. *)
Definition _resolve_resource_view_to_file (view_url : str) : M (list str) :=
  let test_url := redirect_probe_url view_url in
  let! r := _http_head_follow test_url in
  match r with
  | Some r' =>
      if negb (is_empty (url r')) && contains PLUGINFILE_PHP (url r')
      then ret [url r']
      else scrape_view view_url
  | None => scrape_view view_url
  end.

(** [_get_last_modified_for_file], lines 217-221. *)
Definition _get_last_modified_for_file (file_url : str)
  : M (option datetime) :=
  let! r := _http_head_follow file_url in
  match r with
  | Some r' =>
      if response_ok r' then lift (_parse_http_last_modified (headers r'))
      else ret None
  | None => ret None
  end.

(** *** The scan *)

(** How a file was reached: a direct link on the course page, the
    resolution of a resource view, or a link with label [txt] on a
    folder or assignment page. *)
Inductive origin : Type :=
  | Direct
  | ViaResource (act : str)
  | ViaPage (act txt : str).

(** One call of [_get_last_modified_for_file] made by [scan_all]: the
    key it was made for, how the file was reached, the answer, and the
    record it led to.  The scan only appends to this log. *)
Record lookup : Type := {
  lk_course : str;
  lk_file : str;
  lk_origin : origin;
  lk_time : option datetime;
  lk_record : option FoundFile
}.

Definition lk_key (e : lookup) : str * str := (lk_course e, lk_file e).

(** The variables of [scan_all], and the log of its lookups. *)
Record scan_state : Type := {
  found : list FoundFile;
  seen_files : gset (str * str);
  lookups : list lookup
}.

Section Course.
Variable reference_dt : datetime.
Variables name_raw name_display course_url : str.

(** The block shared by lines 531-542, 548-560 and 570-582: skip a
    key already seen, else mark it, ask for the modification time and
    append a record when it is later than [reference_dt]. *)
Definition check_file (pf fname link : str) (o : origin)
    (st : scan_state) : M scan_state :=
  let key := (course_url, pf) in
  if bool_decide (key ∈ seen_files st) then ret st
  else
    let seen := {[key]} ∪ seen_files st in
    let! lm := _get_last_modified_for_file pf in
    let log t r :=
      lookups st ++
      [{| lk_course := course_url; lk_file := pf; lk_origin := o;
          lk_time := t; lk_record := r |}] in
    match lm with
    | None =>
        ret {| found := found st; seen_files := seen;
               lookups := log None None |}
    | Some t =>
        if dt_gtb t reference_dt then
          let item :=
            {| course_name_raw := name_raw;
               course_name_display := name_display;
               file_name := fname;
               last_modified_il := t;
               link := link |} in
          ret {| found := found st ++ [item]; seen_files := seen;
                 lookups := log (Some t) (Some item) |}
        else
          ret {| found := found st; seen_files := seen;
                 lookups := log (Some t) None |}
    end.

(** Lines 530-542. *)
Definition scan_pluginfile (pf : str) : scan_state → M scan_state :=
  check_file pf (_safe_filename_from_url pf) pf Direct.

(** Lines 545-560. *)
Definition scan_resource (act : str) (st : scan_state) : M scan_state :=
  let! pf_urls := _resolve_resource_view_to_file act in
  for_each pf_urls
    (λ pf, check_file pf (_safe_filename_from_url pf)
             (_normalize_link_for_print act pf) (ViaResource act))
    st.

(** Lines 562-582. *)
Definition scan_page (act : str) (st : scan_state) : M scan_state :=
  let! act_html := _http_get_html act in
  match act_html with
  | Some (c :: h) =>
      for_each (_extract_pluginfile_links_from_html (c :: h))
        (λ '(pf, txt) st,
           if negb (contains PLUGINFILE_PHP pf) then ret st
           else
             let fname :=
               if is_empty (strip txt) then _safe_filename_from_url pf
               else strip txt in
             check_file pf fname (_normalize_link_for_print act pf)
               (ViaPage act txt) st)
        st
  | _ => ret st
  end.

(** Lines 544-582. *)
Definition scan_activity (act : str) : scan_state → M scan_state :=
  if contains RESOURCE_VIEW act then scan_resource act
  else scan_page act.

End Course.

(** The body of the loop over [courses], lines 521-582. *)
Definition scan_course (reference_dt : datetime) (course : str * str)
    (st : scan_state) : M scan_state :=
  let '(name_raw, course_url) := course in
  let name_display := _course_display_name name_raw in
  let! html := _http_get_html course_url in
  match html with
  | Some (c :: h) =>
      let '(pluginfiles, activity_pages) :=
        _extract_activity_links_from_course_html (c :: h) in
      let! st :=
        for_each (sorted str_ltb (elements pluginfiles))
          (scan_pluginfile reference_dt name_raw name_display course_url)
          st in
      for_each (sorted str_ltb (elements activity_pages))
        (scan_activity reference_dt name_raw name_display course_url) st
  | _ => ret st
  end.

(** The sort key of line 584 compared as Python compares tuples: the
    first components that differ decide. *)
Definition key_ltb (x y : FoundFile) : bool :=
  if negb (str_eqb (course_name_display x) (course_name_display y)) then
    str_ltb (course_name_display x) (course_name_display y)
  else if negb (dt_eqb (last_modified_il x) (last_modified_il y)) then
    dt_ltb (last_modified_il x) (last_modified_il y)
  else str_ltb (lower (file_name x)) (lower (file_name y)).

(** The loops of [scan_all], lines 518-582, from the empty state. *)
Definition scan_loop (courses : list (str * str)) (reference_dt : datetime)
  : M scan_state :=
  for_each courses (scan_course reference_dt)
    {| found := []; seen_files := ∅; lookups := [] |}.

(** [scan_all], lines 517-585. *)
Definition scan_all (courses : list (str * str)) (reference_dt : datetime)
  : M (list FoundFile) :=
  let! st := scan_loop courses reference_dt in
  ret (sorted key_ltb (found st)).

End Engine.

(** ** A small site to run the engine on *)

(** Percent-decoding of escapes below U+0080. *)
Definition hex_value (c : N) : option N :=
  if (48 <=? c) && (c <=? 57) then Some (c - 48)
  else if (65 <=? c) && (c <=? 70) then Some (c - 55)
  else if (97 <=? c) && (c <=? 102) then Some (c - 87)
  else None.

Fixpoint unquote_ascii (s : str) : str :=
  match s with
  | 37 :: ((a :: b :: _) as s') =>
      match hex_value a, hex_value b with
      | Some x, Some y =>
          if 16 * x + y <? 128 then (16 * x + y) :: drop 2 (unquote_ascii s')
          else 37 :: unquote_ascii s'
      | _, _ => 37 :: unquote_ascii s'
      end
  | c :: s' => c :: unquote_ascii s'
  | [] => []
  end.

(** The path of [scheme://host/path?query#fragment]. *)
Definition path_of_url (url : str) : str :=
  let rest :=
    match split_once (u "://") url with
    | Some (_, r) =>
        match split_once (u "/") r with
        | Some (_, p) => SLASH :: p
        | None => []
        end
    | None => url
    end in
  let rest :=
    match split_once (u "?") rest with Some (p, _) => p | None => rest end in
  match split_once (u "#") rest with Some (p, _) => p | None => rest end.

#[export] Instance urllib_ascii : Urllib := {|
  urlparse_path := path_of_url;
  unquote := unquote_ascii
|}.

(** Anchors written exactly as [<a href="...">text</a>]. *)
Fixpoint until (c : N) (s : str) : str :=
  match s with
  | [] => []
  | d :: s' => if d =? c then [] else d :: until c s'
  end.

Fixpoint plain_anchors (s : str) : list anchor :=
  match s with
  | [] => []
  | _ :: s' =>
      let opening := u "<a href=" ++ [34] in
      if starts_with opening s then
        let rest := drop (length opening) s in
        let href := until 34 rest in
        {| a_href := href;
           a_text := until 60 (drop (length href + 2) rest) |}
        :: plain_anchors s'
      else plain_anchors s'
  end.

#[export] Instance bs4_plain : Bs4 := {| select_a_href := plain_anchors |}.

(** Midnight of 2024-01-01 ([date(2024, 1, 1).toordinal()] is 738886). *)
Definition JAN_1_2024 : Z := 738885 * 86400 * 1000000.
Definition HOUR : Z := 3600 * 1000000.
Definition DAY : Z := 24 * HOUR.

Definition DATE_GMT : str := Eval vm_compute in u "Mon, 01 Jan 2024 10:00:00 GMT".
Definition DATE_BARE : str := Eval vm_compute in u "Tue, 02 Jan 2024 08:30:00 -0000".
Definition DATE_EAST : str := Eval vm_compute in u "Wed, 03 Jan 2024 12:00:00 +0200".
Definition DATE_EARLY : str := Eval vm_compute in u "Mon, 01 Jan 0001 00:30:00 +0200".

(** A date parser that knows four dates. *)
Definition parsedate_known (s : str) : result parsed_date :=
  if str_eqb s DATE_GMT then
    Ok {| pd_wall := JAN_1_2024 + 10 * HOUR; pd_offset := Some 0 |}%Z
  else if str_eqb s DATE_BARE then
    Ok {| pd_wall := JAN_1_2024 + DAY + 8 * HOUR + HOUR / 2;
          pd_offset := None |}%Z
  else if str_eqb s DATE_EAST then
    Ok {| pd_wall := JAN_1_2024 + 2 * DAY + 12 * HOUR;
          pd_offset := Some 7200 |}%Z
  else if str_eqb s DATE_EARLY then
    Ok {| pd_wall := HOUR / 2; pd_offset := Some 7200 |}%Z
  else Raised.

#[export] Instance email_known : EmailUtils := {|
  parsedate_to_datetime := parsedate_known
|}.

Definition COURSE_URL : str :=
  Eval vm_compute in u "https://moodle.tau.ac.il/course/view.php?id=7".
Definition NOTES_URL : str :=
  Eval vm_compute in u "https://moodle.tau.ac.il/pluginfile.php/11/notes.pdf".
Definition SLIDES_VIEW : str :=
  Eval vm_compute in u "https://moodle.tau.ac.il/mod/resource/view.php?id=21".
Definition SLIDES_URL : str :=
  Eval vm_compute in u "https://moodle.tau.ac.il/pluginfile.php/21/slides.pdf".
Definition FOLDER_PAGE : str :=
  Eval vm_compute in u "https://moodle.tau.ac.il/mod/folder/view.php?id=31".
Definition SHEET_URL : str :=
  Eval vm_compute in u "https://moodle.tau.ac.il/pluginfile.php/31/sheet%201.pdf".
Definition OLD_URL : str :=
  Eval vm_compute in u "https://moodle.tau.ac.il/pluginfile.php/31/old.pdf".
Definition ASSIGN_PAGE : str :=
  Eval vm_compute in u "https://moodle.tau.ac.il/mod/assign/view.php?id=41".
Definition BOTH_URL : str :=
  Eval vm_compute in
    u "https://moodle.tau.ac.il/pluginfile.php/5/moodle.tau.ac.il/mod/folder/view.php".
Definition FORUM_URL : str :=
  Eval vm_compute in u "https://moodle.tau.ac.il/mod/forum/view.php?id=51".

Definition a_tag (href text : string) : str :=
  u "<a href=" ++ [34] ++ u href ++ [34] ++ u ">" ++ u text ++ u "</a>".

Definition COURSE_HTML : str :=
  Eval vm_compute in
    a_tag "https://moodle.tau.ac.il/mod/folder/view.php?id=31" "Sheets"
    ++ a_tag "https://moodle.tau.ac.il/pluginfile.php/11/notes.pdf" "Notes"
    ++ a_tag "https://moodle.tau.ac.il/mod/resource/view.php?id=21" "Slides"
    ++ a_tag "https://moodle.tau.ac.il/mod/forum/view.php?id=51" "Forum"
    ++ a_tag "https://moodle.tau.ac.il/mod/assign/view.php?id=41" "Homework"
    ++ a_tag "https://moodle.tau.ac.il/pluginfile.php/5/moodle.tau.ac.il/mod/folder/view.php" "Odd".

Definition FOLDER_HTML : str :=
  Eval vm_compute in
    a_tag "https://moodle.tau.ac.il/pluginfile.php/31/sheet%201.pdf" " "
    ++ a_tag "https://moodle.tau.ac.il/pluginfile.php/11/notes.pdf" "Notes again"
    ++ a_tag "https://moodle.tau.ac.il/pluginfile.php/31/old.pdf" "Old Sheet"
    ++ a_tag "https://moodle.tau.ac.il/pluginfile.php/31/sheet%201.pdf" "Sheet 1".

Definition reply (status : Z) (final : str) (date : option str) (body : str)
  : result Response :=
  Ok {| status_code := status; url := final;
        headers := λ name,
          if str_eqb name LAST_MODIFIED || str_eqb name last_modified
          then date else None;
        text := body |}.

(** What the site answers to HEAD; unknown addresses time out. *)
Definition site_head (url : str) : result Response :=
  if str_eqb url NOTES_URL then reply 200 url (Some DATE_EAST) []
  else if str_eqb url (SLIDES_VIEW ++ u "&redirect=1") then
    reply 200 SLIDES_URL (Some DATE_GMT) []
  else if str_eqb url SLIDES_URL then reply 200 url (Some DATE_EAST) []
  else if str_eqb url SHEET_URL then reply 200 url (Some DATE_BARE) []
  else if str_eqb url OLD_URL then reply 200 url (Some DATE_GMT) []
  else if str_eqb url BOTH_URL then reply 200 url None []
  else if str_eqb url (FOLDER_PAGE ++ u "&redirect=1") then
    reply 200 FOLDER_PAGE None []
  else Raised.

(** What the site answers to GET. *)
Definition site_get (url : str) : result Response :=
  if str_eqb url COURSE_URL then reply 200 url None COURSE_HTML
  else if str_eqb url FOLDER_PAGE then reply 200 url None FOLDER_HTML
  else if str_eqb url FORUM_URL then reply 404 url None (u "not here")
  else Raised.

(** The world counts the requests it has served. *)
#[export] Instance requests_site : Requests := {|
  World := nat;
  session_head := λ url w, (site_head url, S w);
  session_get := λ url _ w, (site_get url, S w)
|}.

Definition START : Net := {| net_world := 0%nat; net_calls := [] |}.

(** 2024-01-02T00:00 in Israel. *)
Definition WATERMARK : datetime :=
  {| dt_wall := JAN_1_2024 + DAY; dt_tz := TzIL; dt_fold := false |}.

Definition COURSES : list (str * str) :=
  [(u "05092843 - Harmonic Analysis", COURSE_URL)].


(** * Properties *)

(** ** Strings *)

Lemma starts_with_spec (p s : str) :
  starts_with p s = true ↔ ∃ r, s = p ++ r.
Proof.
  revert s. induction p as [|a p IH]; intros s; simpl.
  - split; [eauto | done].
  - destruct s as [|b s].
    + split; [done | intros [r Hr]; discriminate].
    + rewrite andb_true_iff, N.eqb_eq, IH. split.
      * intros [-> [r ->]]. eauto.
      * intros [r Hr]. injection Hr as -> ->. eauto.
Qed.

Lemma contains_spec (p s : str) :
  contains p s = true ↔ ∃ l r, s = l ++ p ++ r.
Proof.
  induction s as [|c s IH].
  - simpl. rewrite orb_false_r, starts_with_spec. split.
    + intros [r Hr]. exists [], r. done.
    + intros (l & r & Hlr). destruct l; [eauto|discriminate].
  - cbn [contains]. rewrite orb_true_iff, starts_with_spec, IH. split.
    + intros [[r Hr] | (l & r & ->)].
      * exists [], r. done.
      * exists (c :: l), r. done.
    + intros (l & r & Hlr). destruct l as [|d l].
      * left. eauto.
      * injection Hlr as -> ->. right. eauto.
Qed.

(** A text that contains [p] contains every piece of [p]. *)
Lemma contains_piece (a q b s : str) :
  contains (a ++ q ++ b) s = true → contains q s = true.
Proof.
  rewrite !contains_spec. intros (l & r & ->).
  exists (l ++ a), (b ++ r). by rewrite <- !app_assoc.
Qed.

Lemma contains_false (p s : str) :
  contains p s = false → ∀ l r, s ≠ l ++ p ++ r.
Proof.
  intros Hc l r ->.
  assert (contains p (l ++ p ++ r) = true) by (apply contains_spec; eauto).
  congruence.
Qed.

Lemma split_once_sound (sep s l r : str) :
  split_once sep s = Some (l, r) →
  s = l ++ sep ++ r ∧
  ∀ l' r', s = l' ++ sep ++ r' → (length l ≤ length l')%nat.
Proof.
  revert l r. induction s as [|c s IH]; intros l r; cbn [split_once].
  - destruct (starts_with sep []) eqn:Hs; [|done].
    intros [= <- <-]. apply starts_with_spec in Hs as [r' Hr'].
    symmetry in Hr'. apply app_eq_nil in Hr' as [-> ->].
    split; [done | intros; simpl; lia].
  - destruct (starts_with sep (c :: s)) eqn:Hs.
    + intros [= <- <-]. apply starts_with_spec in Hs as [r' Hr'].
      split; [|intros; simpl; lia].
      rewrite Hr', drop_app_length. done.
    + destruct (split_once sep s) as [[l0 r0]|] eqn:Hrec; [|done].
      intros [= <- <-]. destruct (IH _ _ eq_refl) as [-> Hmin].
      split; [done|]. intros [|d l'] r' Heq.
      * assert (starts_with sep (c :: l0 ++ sep ++ r0) = true)
          by (apply starts_with_spec; eauto).
        congruence.
      * injection Heq as -> Heq. simpl. specialize (Hmin _ _ Heq). lia.
Qed.

Lemma split_once_None (sep s : str) :
  split_once sep s = None ↔ contains sep s = false.
Proof.
  induction s as [|c s IH]; cbn [split_once contains].
  - destruct (starts_with sep []); simpl; split; done.
  - destruct (starts_with sep (c :: s)); simpl; [split; done|].
    rewrite <- IH. destruct (split_once sep s) as [[??]|]; split; done.
Qed.

(** The guard [sep in s] makes the unpacking of [s.split(sep, 1)] safe. *)
Lemma split1_two (sep s : str) :
  contains sep s = true → ∃ l r, split1 sep s = [l; r].
Proof.
  intros Hc. unfold split1.
  destruct (split_once sep s) as [[l r]|] eqn:Hs; [eauto|].
  apply split_once_None in Hs. congruence.
Qed.

(** The leftmost occurrence of [sep] in [s] splits it into [l] and [r]. *)
Definition first_split (sep s l r : str) : Prop :=
  s = l ++ sep ++ r ∧
  ∀ l' r', s = l' ++ sep ++ r' → (length l ≤ length l')%nat.

Lemma split_once_first (sep s l r : str) :
  first_split sep s l r → split_once sep s = Some (l, r).
Proof.
  intros [Hs Hmin].
  destruct (split_once sep s) as [[l0 r0]|] eqn:Hsp.
  - apply split_once_sound in Hsp as [Hs0 Hmin0].
    assert (length l0 = length l) as Hlen.
    { apply Nat.le_antisymm; [by eapply Hmin0 | by eapply Hmin]. }
    rewrite Hs in Hs0.
    apply app_inj_1 in Hs0 as [-> Hrest]; [|done].
    apply app_inv_head in Hrest as ->. done.
  - apply split_once_None in Hsp.
    by apply contains_false with (l := l) (r := r) in Hsp.
Qed.

(** ** C9: the display name of a course *)

Section DisplayName.
Context {U : Unicode}.

(** Six or more decimal digits. *)
Definition digits6 (x : str) : Prop :=
  (6 ≤ length x)%nat ∧ Forall (λ c, isdecimal c = true) x.

Lemma fullmatch_d6_spec (x : str) : fullmatch_d6 x = true ↔ digits6 x.
Proof.
  unfold fullmatch_d6, digits6.
  rewrite andb_true_iff, Nat.leb_le, forallb_forall, Forall_forall.
  split; intros [? H]; (split; [done|]); intros c Hc; apply H;
    by apply list_elem_of_In.
Qed.

Lemma lstrip_solid (s : str) :
  Forall (λ c, isspace c = false) s → lstrip s = s.
Proof. destruct 1 as [|c s Hc _]; simpl; [done | by rewrite Hc]. Qed.

Lemma lstrip_idemp (s : str) : lstrip (lstrip s) = lstrip s.
Proof.
  induction s as [|c s IH]; simpl; [done|].
  destruct (isspace c) eqn:Hc; [done | simpl; by rewrite Hc].
Qed.

Lemma lstrip_app (a b : str) : lstrip a ≠ [] → lstrip (a ++ b) = lstrip a ++ b.
Proof.
  induction a as [|c a IH]; simpl; [done|].
  destruct (isspace c); [apply IH | done].
Qed.

Lemma rstrip_solid (s : str) :
  Forall (λ c, isspace c = false) s → rstrip s = s.
Proof.
  intros Hs. unfold rstrip. rewrite lstrip_solid.
  - apply reverse_involutive.
  - by apply Forall_reverse.
Qed.

Lemma rstrip_idemp (s : str) : rstrip (rstrip s) = rstrip s.
Proof. unfold rstrip. by rewrite reverse_involutive, lstrip_idemp. Qed.

Lemma rstrip_app (a b : str) : rstrip b ≠ [] → rstrip (a ++ b) = a ++ rstrip b.
Proof.
  unfold rstrip. intros Hb. rewrite reverse_app, lstrip_app.
  - by rewrite reverse_app, reverse_involutive.
  - intros Hnil. apply Hb. by rewrite Hnil.
Qed.

Lemma strip_solid (s : str) :
  Forall (λ c, isspace c = false) s → strip s = s.
Proof. intros Hs. unfold strip. by rewrite rstrip_solid, lstrip_solid. Qed.

Lemma strip_rstrip (s : str) : strip (rstrip s) = strip s.
Proof. unfold strip. by rewrite rstrip_idemp. Qed.

Lemma digits_solid (x : str) :
  Forall (λ c, isdecimal c = true) x → Forall (λ c, isspace c = false) x.
Proof. intros H. eapply Forall_impl; [exact H | apply isdecimal_not_space]. Qed.

(** A run of digits followed by [" - "] splits right after the digits. *)
Lemma split_once_digits (x r : str) :
  Forall (λ c, isdecimal c = true) x →
  split_once SEP (x ++ SEP ++ r) = Some (x, r).
Proof.
  induction 1 as [|c x Hc _ IH].
  - done.
  - cbn [app split_once]. rewrite IH.
    replace (starts_with SEP (c :: x ++ SEP ++ r)) with false; [done|].
    symmetry. unfold SEP. cbn [starts_with].
    destruct (32 =? c) eqn:Heq; [|done].
    apply N.eqb_eq in Heq as <-. apply isdecimal_not_space in Hc.
    rewrite isspace_space in Hc. done.
Qed.

(** The label trimmed; then, when the text before the first [" - "],
    trimmed, is six or more decimal digits, the text after it, trimmed. *)
Lemma display_name_split (raw l r : str) :
  first_split SEP (strip raw) l r →
  _course_display_name raw =
    if fullmatch_d6 (strip l) then strip r else strip raw.
Proof.
  intros Hf. unfold _course_display_name, split1. cbv zeta.
  rewrite (split_once_first _ _ _ _ Hf).
  destruct Hf as [Hs _].
  assert (contains SEP (strip raw) = true) as ->; [|done].
  apply contains_spec. eauto.
Qed.

Lemma display_name_plain (raw : str) :
  contains SEP (strip raw) = false → _course_display_name raw = strip raw.
Proof. intros H. unfold _course_display_name. cbv zeta. by rewrite H. Qed.

(** C9, as the code has it: the label is trimmed first.  If the trimmed
    label contains [" - "] and the text before its first occurrence,
    trimmed, is six or more decimal digits, the display name is the text
    after that occurrence, trimmed; otherwise it is the trimmed label.
    In particular a label [<6+ digits> - <rest>] with a non-blank <rest>
    gives <rest> trimmed, and a label without surrounding white space
    that has no such prefix is returned unchanged. *)
Theorem course_display_name_trimmed (raw : str) :
  (∀ l r, first_split SEP (strip raw) l r → digits6 (strip l) →
          _course_display_name raw = strip r)
  ∧ (∀ l r, first_split SEP (strip raw) l r → ¬ digits6 (strip l) →
            _course_display_name raw = strip raw)
  ∧ ((∀ l r, strip raw ≠ l ++ SEP ++ r) →
     _course_display_name raw = strip raw)
  ∧ (∀ digits rest, raw = digits ++ SEP ++ rest → digits6 digits →
                    strip rest ≠ [] →
                    _course_display_name raw = strip rest).
Proof.
  repeat split.
  - intros l r Hf Hd. rewrite (display_name_split _ _ _ Hf).
    apply fullmatch_d6_spec in Hd. by rewrite Hd.
  - intros l r Hf Hd. rewrite (display_name_split _ _ _ Hf).
    destruct (fullmatch_d6 (strip l)) eqn:Hm; [|done].
    by apply fullmatch_d6_spec in Hm.
  - intros Hno. apply display_name_plain.
    destruct (contains SEP (strip raw)) eqn:Hc; [|done].
    apply contains_spec in Hc as (l & r & Hlr). by destruct (Hno l r).
  - intros digits rest -> [Hlen Hdig] Hrest.
    pose proof (digits_solid _ Hdig) as Hsolid.
    assert (rstrip rest ≠ []) as Hr.
    { intros Hnil. apply Hrest. unfold strip. by rewrite Hnil. }
    assert (strip (digits ++ SEP ++ rest) = digits ++ SEP ++ rstrip rest)
      as Hs.
    { unfold strip. rewrite rstrip_app.
      - rewrite rstrip_app by done.
        destruct Hsolid as [|c x Hc _]; [simpl in Hlen; lia|].
        simpl. by rewrite Hc.
      - rewrite rstrip_app by done. unfold SEP. done. }
    unfold _course_display_name, split1. cbv zeta.
    rewrite Hs, split_once_digits by done.
    assert (contains SEP (digits ++ SEP ++ rstrip rest) = true) as ->
      by (apply contains_spec; eauto).
    rewrite strip_solid by done.
    assert (fullmatch_d6 digits = true) as ->
      by by apply fullmatch_d6_spec.
    apply strip_rstrip.
Qed.

(** The property as first stated: [<6+ digits> - <rest>] gives <rest>
    trimmed, and every other label is returned unchanged. *)
Definition display_name_as_stated (raw : str) : Prop :=
  (∀ digits rest, raw = digits ++ SEP ++ rest → digits6 digits →
                  _course_display_name raw = strip rest)
  ∧ ((∀ digits rest, raw = digits ++ SEP ++ rest → ¬ digits6 digits) →
     _course_display_name raw = raw).

End DisplayName.

(** The two labels of the specification.  The Hebrew name is
    U+05D0 U+05E0 U+05DC U+05D9 U+05D6 U+05D4, a space, and
    U+05D4 U+05E8 U+05DE U+05D5 U+05E0 U+05D9 U+05EA. *)
Definition HARMONIC : str :=
  [0x5D0; 0x5E0; 0x5DC; 0x5D9; 0x5D6; 0x5D4; 32;
   0x5D4; 0x5E8; 0x5DE; 0x5D5; 0x5E0; 0x5D9; 0x5EA].

Example display_name_numbered :
  _course_display_name (u "05092843 - " ++ HARMONIC) = HARMONIC.
Proof. reflexivity. Qed.

Example display_name_seminar :
  _course_display_name (u "Seminar XYZ") = u "Seminar XYZ".
Proof. reflexivity. Qed.

(** The theorem at the two labels of the specification. *)
Lemma course_display_name_trimmed_witness :
  _course_display_name (u "05092843 - " ++ HARMONIC) = HARMONIC
  ∧ _course_display_name (u "Seminar XYZ") = u "Seminar XYZ".
Proof.
  split.
  - change HARMONIC with (strip HARMONIC) at 2.
    apply (proj2 (proj2 (proj2
             (course_display_name_trimmed (u "05092843 - " ++ HARMONIC))))
             (u "05092843") HARMONIC).
    + reflexivity.
    + split; [vm_compute; lia | repeat constructor].
    + discriminate.
  - change (u "Seminar XYZ") with (strip (u "Seminar XYZ")) at 2.
    apply (proj1 (proj2 (proj2
             (course_display_name_trimmed (u "Seminar XYZ"))))).
    apply contains_false. reflexivity.
Defined.

(** C9 as first stated fails on a label with a leading space: it matches
    no numbered prefix, yet it is not returned unchanged.  It also fails
    on a numbered prefix followed by nothing: trimming the label first
    takes the space after the dash away. *)
Lemma display_name_not_unchanged :
  ¬ display_name_as_stated (u " Seminar XYZ")
  ∧ ¬ display_name_as_stated (u "123456 - ").
Proof.
  split.
  - intros [_ Hother].
    assert (_course_display_name (u " Seminar XYZ") = u " Seminar XYZ") as H;
      [|discriminate H].
    apply Hother. intros digits rest Heq [Hlen Hdig].
    destruct digits as [|c digits]; [simpl in Hlen; lia|].
    injection Heq as <- _. apply Forall_cons_1 in Hdig as [Hc _].
    discriminate.
  - intros [Hnumbered _].
    assert (_course_display_name (u "123456 - ") = strip []) as H;
      [|discriminate H].
    apply (Hnumbered (u "123456") []); [reflexivity|].
    split; [vm_compute; lia | repeat constructor].
Qed.

(** ** C7, C10: classification of the links of a page *)

(** The portal's file-serving pattern, and the three activity patterns. *)
Definition is_file_link (href : str) : bool := contains PLUGINFILE_URL href.

Definition is_activity_link (href : str) : bool :=
  contains RESOURCE_URL href || contains FOLDER_URL href
  || contains ASSIGN_URL href.

Lemma classify_href_eq (href : str) (files pages : gset str) :
  classify_href href (files, pages) =
    (if is_file_link href then {[href]} ∪ files else files,
     if negb (is_file_link href) && is_activity_link href
     then {[href]} ∪ pages else pages).
Proof.
  unfold classify_href, is_file_link, is_activity_link.
  destruct href as [|c href]; [done|]. cbn [is_empty].
  destruct (contains PLUGINFILE_URL (c :: href)); [done|].
  destruct (contains RESOURCE_URL (c :: href)); [done|].
  destruct (contains FOLDER_URL (c :: href)); [done|].
  destruct (contains ASSIGN_URL (c :: href)); done.
Qed.

Lemma classify_fold (l : list anchor) (files pages : gset str) (href : str) :
  let sets := foldl (λ sets a, classify_href (a_href a) sets) (files, pages) l in
  (href ∈ sets.1 ↔
     href ∈ files ∨ (href ∈ map a_href l ∧ is_file_link href = true))
  ∧ (href ∈ sets.2 ↔
       href ∈ pages ∨ (href ∈ map a_href l ∧ is_file_link href = false
                       ∧ is_activity_link href = true)).
Proof.
  revert files pages. induction l as [|a l IH]; intros files pages.
  - simpl. set_solver.
  - cbn [foldl map]. rewrite classify_href_eq.
    cbv zeta in IH |- *.
    destruct (IH (if is_file_link (a_href a) then {[a_href a]} ∪ files
                  else files)
                 (if negb (is_file_link (a_href a))
                     && is_activity_link (a_href a)
                  then {[a_href a]} ∪ pages else pages)) as [-> ->].
    rewrite !elem_of_cons.
    destruct (is_file_link (a_href a)) eqn:Hf;
      destruct (is_activity_link (a_href a)) eqn:Ha; simpl;
      rewrite ?elem_of_union, ?elem_of_singleton;
      naive_solver congruence.
Qed.

Section Links.
Context {B : Bs4}.

(** The [href] values of the anchors of a page. *)
Definition hrefs (html : str) : list str := map a_href (select_a_href html).

(** Membership in the two sets returned for a page. *)
Lemma links_classified (html href : str) :
  let sets := _extract_activity_links_from_course_html html in
  (href ∈ sets.1 ↔ href ∈ hrefs html ∧ is_file_link href = true)
  ∧ (href ∈ sets.2 ↔
       href ∈ hrefs html ∧ is_file_link href = false
       ∧ is_activity_link href = true).
Proof.
  cbv zeta. unfold _extract_activity_links_from_course_html, hrefs.
  destruct (classify_fold (select_a_href html) ∅ ∅ href) as [H1 H2].
  cbv zeta in H1, H2. rewrite H1, H2. clear H1 H2.
  rewrite !elem_of_empty. naive_solver congruence.
Qed.

(** C7: of the hrefs of a page, exactly those matching the file-serving
    pattern are in the set of direct file links; exactly those that do
    not match it and match one of the three activity patterns are in the
    set of activity links; no href is in both sets, and an href matching
    no pattern is in neither. *)
Theorem extract_links_classifies (html href : str) :
  let sets := _extract_activity_links_from_course_html html in
  (href ∈ sets.1 ↔ href ∈ hrefs html ∧ is_file_link href = true)
  ∧ (href ∈ sets.2 ↔
       href ∈ hrefs html ∧ is_file_link href = false
       ∧ is_activity_link href = true)
  ∧ ¬ (href ∈ sets.1 ∧ href ∈ sets.2)
  ∧ (is_file_link href = false → is_activity_link href = false →
     (href ∉ sets.1) ∧ (href ∉ sets.2)).
Proof.
  cbv zeta. destruct (links_classified html href) as [H1 H2].
  cbv zeta in H1, H2. rewrite H1, H2. clear H1 H2.
  naive_solver congruence.
Qed.

(** C10: an href of the page that carries the file-serving pattern and
    also one of the three activity patterns is a direct file link only. *)
Theorem pluginfile_takes_precedence (html href : str) :
  href ∈ hrefs html →
  is_file_link href = true →
  is_activity_link href = true →
  let sets := _extract_activity_links_from_course_html html in
  href ∈ sets.1 ∧ (href ∉ sets.2).
Proof.
  intros Hin Hf Ha. cbv zeta.
  destruct (links_classified html href) as (H1 & H2).
  cbv zeta in H1, H2. rewrite H1, H2. split; [done|].
  intros (_ & Hf' & _). congruence.
Qed.

End Links.

(** On the course page of the small site the link to the forum is in
    neither set, and the link to the notes is a direct file link. *)
Lemma extract_links_classifies_witness :
  (FORUM_URL ∉ (_extract_activity_links_from_course_html COURSE_HTML).1)
  ∧ (FORUM_URL ∉ (_extract_activity_links_from_course_html COURSE_HTML).2)
  ∧ NOTES_URL ∈ (_extract_activity_links_from_course_html COURSE_HTML).1.
Proof.
  destruct (extract_links_classifies COURSE_HTML FORUM_URL)
    as (_ & _ & _ & Hneither).
  destruct (Hneither eq_refl eq_refl) as [H1 H2].
  split; [exact H1|]. split; [exact H2|].
  apply (proj1 (extract_links_classifies COURSE_HTML NOTES_URL)).
  split; [vm_compute; set_solver | reflexivity].
Defined.

(** The course page of the small site links a file whose address carries
    both patterns. *)
Lemma pluginfile_takes_precedence_witness :
  BOTH_URL ∈ hrefs COURSE_HTML
  ∧ is_file_link BOTH_URL = true
  ∧ is_activity_link BOTH_URL = true
  ∧ BOTH_URL ∈ (_extract_activity_links_from_course_html COURSE_HTML).1
  ∧ (BOTH_URL ∉ (_extract_activity_links_from_course_html COURSE_HTML).2).
Proof.
  assert (BOTH_URL ∈ hrefs COURSE_HTML) as Hin by (vm_compute; set_solver).
  destruct (pluginfile_takes_precedence COURSE_HTML BOTH_URL Hin
              eq_refl eq_refl) as [Hfile Hpage].
  split; [exact Hin|]. split; [reflexivity|]. split; [reflexivity|].
  split; [exact Hfile | exact Hpage].
Defined.

(** ** Requests never escape the two fetch helpers *)

Section Fetch.
Context {U : Unicode} {L : Urllib} {B : Bs4} {E : EmailUtils}
        {T : ZoneInfo} {R : Requests}.

Lemma http_head_follow_total (url : str) (n : Net) :
  ∃ r n', _http_head_follow url n = (Ok r, n')
          ∧ (net_calls n' = net_calls n ++ [CallHead url]
             ∨ net_calls n' = net_calls n ++ [CallHead url; CallGet url true]).
Proof.
  unfold _http_head_follow, try_except, bind, do_head, do_get, ret.
  destruct (session_head url (net_world n)) as [[r|] w]; [|eauto].
  destruct (_ || _); [|eauto].
  cbn [net_world net_calls].
  destruct (session_get url true w) as [[r'|] w'];
    rewrite <- app_assoc; eauto.
Qed.

Lemma http_get_html_total (url : str) (n : Net) :
  ∃ html n', _http_get_html url n = (Ok html, n')
             ∧ net_calls n' = net_calls n ++ [CallGet url false].
Proof.
  unfold _http_get_html, try_except, bind, do_get, ret.
  destruct (session_get url false (net_world n)) as [[r|] w]; [|eauto].
  destruct (_ <=? _)%Z; eauto.
Qed.

(** A failed page fetch is [None]: the request raised, or the status is
    400 or more. *)
Lemma http_get_html_failed (url : str) (n : Net) :
  (∀ r w, session_get url false (net_world n) = (Ok r, w) →
          (400 ≤ status_code r)%Z) →
  (_http_get_html url n).1 = Ok None.
Proof.
  intros Hbad. unfold _http_get_html, try_except, bind, do_get, ret.
  destruct (session_get url false (net_world n)) as [[r|] w] eqn:Hg; [|done].
  specialize (Hbad _ _ eq_refl).
  destruct (400 <=? status_code r)%Z eqn:Hs; [done | lia].
Qed.

End Fetch.

(** ** C6: the modification time of a file *)

Section ModifiedTime.
Context {U : Unicode} {L : Urllib} {B : Bs4} {E : EmailUtils}
        {T : ZoneInfo} {R : Requests}.

(** The Israel-time value of the UTC instant [utc], when
    [datetime] can hold it. *)
Definition israel_time (utc : Z) : option datetime :=
  if in_range utc && in_range (utc + il_offset_at utc) then
    Some {| dt_wall := (utc + il_offset_at utc)%Z; dt_tz := TzIL;
            dt_fold := il_fold_at utc |}
  else None.

(** The UTC instant a parsed date stands for: a date without an offset
    counts as UTC. *)
Definition utc_instant (p : parsed_date) : Z :=
  match pd_offset p with
  | None => pd_wall p
  | Some secs => (pd_wall p - secs * 1000000)%Z
  end.

Lemma parse_parsed (h : str → option str) (v : str) (p : parsed_date) :
  py_or (h LAST_MODIFIED) (h last_modified) = Some v →
  v ≠ [] →
  parsedate_to_datetime v = Ok p →
  _parse_http_last_modified h = Ok (israel_time (utc_instant p)).
Proof.
  intros Hv Hne Hp. unfold _parse_http_last_modified. cbv zeta.
  rewrite Hv. destruct v as [|c v]; [done|]. rewrite Hp.
  unfold israel_time, utc_instant, and_then, astimezone_il.
  destruct (pd_offset p) as [secs|]; cbn [dt_tz dt_wall];
    rewrite ?Z.sub_0_r;
    repeat (destruct (in_range _); simpl; try done).
Qed.

Lemma parse_total (h : str → option str) :
  ∃ lm, _parse_http_last_modified h = Ok lm
        ∧ ∀ d, lm = Some d → dt_tz d = TzIL.
Proof.
  unfold _parse_http_last_modified. cbv zeta.
  destruct (py_or _ _) as [[|c v]|] eqn:Hv;
    [eexists; split; done| |eexists; split; done].
  destruct (parsedate_to_datetime (c :: v)) as [p|] eqn:Hp;
    [|eexists; split; done].
  pose proof (parse_parsed h _ p Hv ltac:(done) Hp) as Heq.
  unfold _parse_http_last_modified in Heq. cbv zeta in Heq.
  rewrite Hv, Hp in Heq. rewrite Heq. eexists; split; [done|].
  unfold israel_time. intros d. destruct (_ && _); [|done].
  by intros [= <-].
Qed.

Lemma get_last_modified_total (file_url : str) (n : Net) :
  ∃ lm n', _get_last_modified_for_file file_url n = (Ok lm, n')
           ∧ ∀ d, lm = Some d → dt_tz d = TzIL.
Proof.
  unfold _get_last_modified_for_file, bind.
  destruct (http_head_follow_total file_url n) as (r & n' & -> & _).
  destruct r as [r|]; [|unfold ret; eexists _, _; split; done].
  destruct (response_ok r); [|unfold ret; eexists _, _; split; done].
  destruct (parse_total (headers r)) as (lm & -> & Hlm).
  unfold lift. eauto.
Qed.


End ModifiedTime.

(** On the small site: a file whose date has no offset, one whose request
    times out, one without the header, and one whose date is too early to
    be shifted to UTC. *)
Example modified_time_bare :
  (_get_last_modified_for_file SHEET_URL START).1 =
    Ok (Some {| dt_wall := JAN_1_2024 + DAY + 10 * HOUR + HOUR / 2;
                dt_tz := TzIL; dt_fold := false |}%Z).
Proof. reflexivity. Qed.

Example modified_time_timeout :
  (_get_last_modified_for_file ASSIGN_PAGE START).1 = Ok None.
Proof. reflexivity. Qed.

Example modified_time_no_header :
  (_get_last_modified_for_file BOTH_URL START).1 = Ok None.
Proof. reflexivity. Qed.


Example modified_time_overflow :
  _parse_http_last_modified
    (λ name, if str_eqb name LAST_MODIFIED then Some DATE_EARLY else None)
  = Ok None.
Proof. reflexivity. Qed.

(** ** C4, C5: resolving an activity page *)

(** Duplicates removed, the first occurrence of each element kept: the
    head stays, and its later occurrences go. *)
Fixpoint keep_first (l : list str) : list str :=
  match l with
  | [] => []
  | x :: l' => x :: filter (λ y, y ≠ x) (keep_first l')
  end.

Lemma fromkeys_filter (seen l : list str) :
  fromkeys seen l = filter (λ y, y ∉ seen) (fromkeys [] l).
Proof.
  revert seen. induction l as [|x l IH]; intros seen; [done|].
  cbn [fromkeys].
  rewrite (bool_decide_eq_false_2 (x ∈ [])) by apply not_elem_of_nil.
  rewrite filter_cons. rewrite (IH [x]), (IH (x :: seen)).
  case_bool_decide as Hx.
  - rewrite decide_False by tauto. rewrite IH, list_filter_filter.
    apply list_filter_iff. intros y. set_solver.
  - rewrite decide_True by done. f_equal.
    rewrite list_filter_filter. apply list_filter_iff. intros y. set_solver.
Qed.

Lemma fromkeys_keep_first (l : list str) : fromkeys [] l = keep_first l.
Proof.
  induction l as [|x l IH]; [done|].
  cbn [fromkeys keep_first].
  rewrite (bool_decide_eq_false_2 (x ∈ [])) by apply not_elem_of_nil.
  rewrite fromkeys_filter, IH. f_equal.
  apply list_filter_iff. intros y. set_solver.
Qed.

Lemma keep_first_elem_of (l : list str) (x : str) : x ∈ keep_first l ↔ x ∈ l.
Proof.
  induction l as [|y l IH]; [done|].
  cbn [keep_first]. rewrite !elem_of_cons, list_elem_of_filter, IH.
  destruct (decide (x = y)); naive_solver.
Qed.

Lemma keep_first_NoDup (l : list str) : NoDup (keep_first l).
Proof.
  induction l as [|y l IH]; [constructor|].
  cbn [keep_first]. constructor.
  - rewrite list_elem_of_filter. naive_solver.
  - by apply NoDup_filter.
Qed.

Section Resolve.
Context {U : Unicode} {L : Urllib} {B : Bs4} {E : EmailUtils}
        {T : ZoneInfo} {R : Requests}.

(** The file links of a page, in document order: the hrefs that contain
    [pluginfile.php]. *)
Definition file_hrefs (html : str) : list str :=
  filter (λ h, contains PLUGINFILE_PHP h = true) (hrefs html).

Lemma contains_nonempty (p href : str) :
  p ≠ [] → contains p href = true → href ≠ [].
Proof.
  intros Hp Hc ->. apply contains_spec in Hc as (l & r & Hlr).
  symmetry in Hlr. apply app_eq_nil in Hlr as [_ Hlr].
  apply app_eq_nil in Hlr as [? _]. done.
Qed.

Lemma extract_fold (l : list anchor) (acc : list (str * str)) :
  Forall (λ a, a_href a ≠ []) l →
  foldl (λ out a,
           let href := a_href a in
           if is_empty href then out
           else let text := strip (a_text a) in out ++ [(href, text)])
        acc l
  = acc ++ map (λ a, (a_href a, strip (a_text a))) l.
Proof.
  intros Hl. revert acc.
  induction Hl as [|a l Ha _ IH]; intros acc; simpl.
  - by rewrite app_nil_r.
  - destruct (a_href a) eqn:Hh; [done|]. simpl.
    rewrite IH, <- app_assoc. done.
Qed.

(** The label-aware scrape lists the file links of the page in document
    order, each with the trimmed text of its anchor. *)
Lemma extract_pluginfile_links_eq (html : str) :
  _extract_pluginfile_links_from_html html =
    map (λ a, (a_href a, strip (a_text a)))
        (filter (λ a, contains PLUGINFILE_PHP (a_href a) = true)
                (select_a_href html)).
Proof.
  unfold _extract_pluginfile_links_from_html.
  rewrite extract_fold; [done|].
  apply Forall_forall. intros a [Ha _]%list_elem_of_filter.
  apply (contains_nonempty PLUGINFILE_PHP); done.
Qed.

Lemma extract_pluginfile_links_hrefs (html : str) :
  map fst (_extract_pluginfile_links_from_html html) = file_hrefs html.
Proof.
  rewrite extract_pluginfile_links_eq. unfold file_hrefs, hrefs.
  induction (select_a_href html) as [|a l IH]; [done|].
  cbn [map]. rewrite !filter_cons. cbn [fst].
  destruct (decide (contains PLUGINFILE_PHP (a_href a) = true));
    cbn [map fst]; by rewrite IH.
Qed.

Lemma foldl_hrefs (l : list (str * str)) (acc : list str) :
  foldl (λ urls '(href, _txt), urls ++ [href]) acc l = acc ++ map fst l.
Proof.
  revert acc. induction l as [|[href txt] l IH]; intros acc; simpl.
  - by rewrite app_nil_r.
  - rewrite IH, <- app_assoc. done.
Qed.

(** What the scrape of lines 207-214 returns: nothing for a page that
    did not arrive or is empty, else its file links without repeats. *)
Definition scraped (html : option str) : list str :=
  match html with
  | Some (c :: h) => keep_first (file_hrefs (c :: h))
  | _ => []
  end.

Lemma scrape_view_spec (view_url : str) (n : Net) :
  ∃ html n', _http_get_html view_url n = (Ok html, n')
             ∧ scrape_view view_url n = (Ok (scraped html), n').
Proof.
  destruct (http_get_html_total view_url n) as (html & n' & Hg & _).
  exists html, n'. split; [done|].
  unfold scrape_view, bind. rewrite Hg.
  destruct html as [[|c h]|]; try done.
  unfold ret, scraped. repeat f_equal.
  rewrite fromkeys_keep_first, foldl_hrefs. f_equal.
  apply extract_pluginfile_links_hrefs.
Qed.

(** The probe landed on a file: there is a response, its final address
    is not empty and contains [pluginfile.php]. *)
Definition landed_on_file (r : option Response) : bool :=
  match r with
  | Some r' => negb (is_empty (url r')) && contains PLUGINFILE_PHP (url r')
  | None => false
  end.



(** C5: when the probe does not land on a file, the page itself is
    fetched and the result is the list of its file links in document
    order with repeats removed, the first occurrence kept; it is empty
    when the page did not arrive or has no file link.  Nothing is
    raised: a page request that raises, or answers with status 400 or
    more, counts as a page that did not arrive.  A resource view that
    resolves to nothing leaves the scan as it was. *)
Theorem resolve_fallback (view_url : str) (n n1 : Net) (r : option Response) :
  _http_head_follow (redirect_probe_url view_url) n = (Ok r, n1) →
  landed_on_file r = false →
  (∃ html n2,
      _http_get_html view_url n1 = (Ok html, n2)
      ∧ _resolve_resource_view_to_file view_url n = (Ok (scraped html), n2)
      ∧ NoDup (scraped html)
      ∧ (∀ c h x, html = Some (c :: h) →
                  x ∈ scraped html ↔ x ∈ file_hrefs (c :: h))
      ∧ (html = None → scraped html = [])
      ∧ (∀ c h, html = Some (c :: h) → file_hrefs (c :: h) = [] →
                scraped html = []))
  ∧ (∀ m, (∀ r' w, session_get view_url false (net_world m) = (Ok r', w) →
                   (400 ≤ status_code r')%Z) →
          (_http_get_html view_url m).1 = Ok None)
  ∧ (∀ ref raw display course st m m',
       _resolve_resource_view_to_file view_url m = (Ok [], m') →
       scan_resource ref raw display course view_url st m = (Ok st, m')).
Proof.
  intros Hhead Hland. split.
  - destruct (scrape_view_spec view_url n1) as (html & n2 & Hg & Hs).
    exists html, n2. split; [done|]. split; [|split; [|split; [|split]]].
    + unfold _resolve_resource_view_to_file, bind. cbv zeta.
      rewrite Hhead. destruct r as [r|]; [|done].
      simpl in Hland. by rewrite Hland.
    + destruct html as [[|c h]|]; simpl; try constructor.
      apply keep_first_NoDup.
    + intros c h x ->. simpl. apply keep_first_elem_of.
    + by intros ->.
    + intros c h -> Hnone. simpl. by rewrite Hnone.
  - split; [intros m; apply http_get_html_failed|].
    intros ref raw display course st m m' Hres.
    unfold scan_resource, bind. by rewrite Hres.
Qed.

End Resolve.


Lemma resolve_fallback_witness :
  _resolve_resource_view_to_file FOLDER_PAGE START =
    (Ok [SHEET_URL; NOTES_URL; OLD_URL],
     {| net_world := 2%nat;
        net_calls := [CallHead (FOLDER_PAGE ++ u "&redirect=1");
                      CallGet FOLDER_PAGE false] |}).
Proof.
  destruct (_http_head_follow (redirect_probe_url FOLDER_PAGE) START)
    as [[r|] n1] eqn:Hh; [|discriminate Hh].
  assert (landed_on_file r = false) as Hland
    by (injection Hh as <- _; reflexivity).
  destruct (resolve_fallback FOLDER_PAGE START n1 r Hh Hland)
    as [(html & n2 & Hg & Hres & _) _].
  rewrite Hres. injection Hh as <- <-.
  vm_compute in Hg. injection Hg as <- <-. reflexivity.
Defined.

(** ** The scan and its log of lookups *)

Lemma insert_sorted_perm {A} (lt : A → A → bool) (x : A) (l : list A) :
  insert_sorted lt x l ≡ₚ x :: l.
Proof.
  induction l as [|y l IH]; simpl; [done|].
  destruct (lt y x); [|done]. rewrite IH. apply Permutation_swap.
Qed.

(** Sorting rearranges and nothing else. *)
Lemma sorted_perm {A} (lt : A → A → bool) (l : list A) : sorted lt l ≡ₚ l.
Proof.
  induction l as [|x l IH]; simpl; [done|].
  by rewrite insert_sorted_perm, IH.
Qed.


Lemma normalize_activity (act pf : str) :
  is_activity_link act = true → _normalize_link_for_print act pf = act.
Proof.
  unfold is_activity_link, _normalize_link_for_print.
  rewrite !orb_true_iff. intros Hact.
  assert (contains RESOURCE_VIEW act || contains FOLDER_VIEW act
          || contains ASSIGN_VIEW act = true) as ->; [|done].
  rewrite !orb_true_iff.
  destruct Hact as [[H|H]|H]; [left; left|left; right|right];
    by apply (contains_piece (u "moodle.tau.ac.il/") _ []).
Qed.

Section Scan.
Context {U : Unicode} {L : Urllib} {B : Bs4} {E : EmailUtils}
        {T : ZoneInfo} {R : Requests}.

(** The name and the reported link a record gets on each path. *)
Definition origin_ok (o : origin) (pf fname lnk : str) : Prop :=
  match o with
  | Direct => lnk = pf ∧ fname = _safe_filename_from_url pf
  | ViaResource act => lnk = act ∧ fname = _safe_filename_from_url pf
  | ViaPage act txt =>
      lnk = act
      ∧ fname = if is_empty (strip txt) then _safe_filename_from_url pf
                else strip txt
  end.

(** A lookup is consistent with the watermark: it led to a record
    exactly when it found a time later than [reference_dt], and the
    record carries that time. *)
Definition lookup_ok (reference_dt : datetime) (e : lookup) : Prop :=
  match lk_time e, lk_record e with
  | Some t, Some item =>
      dt_gtb t reference_dt = true
      ∧ dt_tz t = TzIL
      ∧ last_modified_il item = t
      ∧ course_name_display item = _course_display_name (course_name_raw item)
      ∧ origin_ok (lk_origin e) (lk_file e) (file_name item) (link item)
  | Some t, None => dt_gtb t reference_dt = false
  | None, None => True
  | None, Some _ => False
  end.

(** What holds of the state of [scan_all] at every point of the loops. *)
Record scan_inv (reference_dt : datetime) (st : scan_state) : Prop := {
  inv_seen : ∀ e, e ∈ lookups st → lk_key e ∈ seen_files st;
  inv_nodup : NoDup (map lk_key (lookups st));
  inv_found : found st = omap lk_record (lookups st);
  inv_ok : Forall (lookup_ok reference_dt) (lookups st)
}.

(** A piece of the scan returns and keeps the invariant. *)
Definition keeps (reference_dt : datetime)
    (body : scan_state → M scan_state) : Prop :=
  ∀ st n, scan_inv reference_dt st →
          ∃ st' n', body st n = (Ok st', n') ∧ scan_inv reference_dt st'.

Lemma keeps_ret (ref : datetime) : keeps ref ret.
Proof. intros st n Hst. by exists st, n. Qed.

Lemma keeps_for_each {A} (ref : datetime) (l : list A)
    (body : A → scan_state → M scan_state) :
  (∀ x, x ∈ l → keeps ref (body x)) → keeps ref (for_each l body).
Proof.
  induction l as [|x l IH]; intros Hbody; simpl.
  - apply keeps_ret.
  - intros st n Hst.
    destruct (Hbody x ltac:(left) st n Hst) as (st1 & n1 & Hrun & Hst1).
    destruct (IH (λ y Hy, Hbody y ltac:(by right)) st1 n1 Hst1)
      as (st2 & n2 & Hrun2 & Hst2).
    exists st2, n2. unfold bind. by rewrite Hrun.
Qed.

Lemma scan_inv_log (ref : datetime) (st : scan_state) (e : lookup) :
  scan_inv ref st →
  lk_key e ∉ seen_files st →
  lookup_ok ref e →
  scan_inv ref
    {| found := found st ++ option_list (lk_record e);
       seen_files := {[lk_key e]} ∪ seen_files st;
       lookups := lookups st ++ [e] |}.
Proof.
  intros [Hseen Hnodup Hfound Hok] Hnew He. constructor; simpl.
  - intros e' [Hin | ->%list_elem_of_singleton]%elem_of_app.
    + apply elem_of_union_r. by apply Hseen.
    + apply elem_of_union_l. by apply elem_of_singleton.
  - rewrite map_app. apply NoDup_app. split; [done|]. split.
    + intros k Hk ->%list_elem_of_singleton.
      apply list_elem_of_fmap in Hk as (e' & Hkey & Hin).
      apply Hnew. rewrite Hkey. by apply Hseen.
    + apply NoDup_singleton.
  - rewrite omap_app, Hfound. by f_equal.
  - apply Forall_app. split; [done|]. by constructor.
Qed.

Lemma check_file_keeps (ref : datetime) (raw display course pf fname lnk : str)
    (o : origin) :
  display = _course_display_name raw →
  origin_ok o pf fname lnk →
  keeps ref (check_file ref raw display course pf fname lnk o).
Proof.
  intros Hdisplay Ho st n Hst. unfold check_file. cbv zeta.
  case_bool_decide as Hkey; [by exists st, n|].
  unfold bind.
  destruct (get_last_modified_total pf n) as (lm & n' & -> & Hzone).
  destruct lm as [t|]; [destruct (dt_gtb t ref) eqn:Hgt|]; unfold ret.
  - eexists _, _. split; [done|].
    apply (scan_inv_log ref st
             {| lk_course := course; lk_file := pf; lk_origin := o;
                lk_time := Some t;
                lk_record := Some
                  {| course_name_raw := raw; course_name_display := display;
                     file_name := fname; last_modified_il := t;
                     link := lnk |} |}); try done.
    unfold lookup_ok. simpl. repeat split; auto.
  - eexists _, _. split; [done|].
    rewrite <- (app_nil_r (found st)).
    by apply (scan_inv_log ref st
             {| lk_course := course; lk_file := pf; lk_origin := o;
                lk_time := Some t; lk_record := None |}).
  - eexists _, _. split; [done|].
    rewrite <- (app_nil_r (found st)).
    by apply (scan_inv_log ref st
             {| lk_course := course; lk_file := pf; lk_origin := o;
                lk_time := None; lk_record := None |}).
Qed.

Lemma scan_activity_keeps (ref : datetime) (raw display course act : str) :
  display = _course_display_name raw →
  is_activity_link act = true →
  keeps ref (scan_activity ref raw display course act).
Proof.
  intros Hdisplay Hact. unfold scan_activity.
  destruct (contains RESOURCE_VIEW act).
  - intros st n Hst. unfold scan_resource, bind.
    destruct (http_head_follow_total (redirect_probe_url act) n)
      as (r & n1 & Hhead & _).
    assert (∃ urls n2,
               _resolve_resource_view_to_file act n = (Ok urls, n2))
      as (urls & n2 & ->).
    { unfold _resolve_resource_view_to_file, bind. cbv zeta. rewrite Hhead.
      destruct (scrape_view_spec act n1) as (html & n2 & _ & Hs).
      destruct r as [r|]; [destruct (_ && _)|]; unfold ret; eauto. }
    apply keeps_for_each; [|done]. intros pf _.
    apply check_file_keeps; [done|].
    split; [by apply normalize_activity | done].
  - intros st n Hst. unfold scan_page, bind.
    destruct (http_get_html_total act n) as (html & n1 & -> & _).
    destruct html as [[|c h]|]; [by exists st, n1| |by exists st, n1].
    apply keeps_for_each; [|done]. intros [pf txt] _.
    destruct (contains PLUGINFILE_PHP pf); simpl; [|apply keeps_ret].
    apply check_file_keeps; [done|].
    split; [by apply normalize_activity | done].
Qed.

Lemma scan_course_keeps (ref : datetime) (course : str * str) :
  keeps ref (scan_course ref course).
Proof.
  destruct course as [raw course]. intros st n Hst.
  unfold scan_course, bind. cbv zeta.
  destruct (http_get_html_total course n) as (html & n1 & -> & _).
  destruct html as [[|c h]|]; [by exists st, n1| |by exists st, n1].
  pose proof (links_classified (c :: h)) as Hclass.
  cbv zeta in Hclass.
  destruct (_extract_activity_links_from_course_html (c :: h))
    as [files pages].
  edestruct (keeps_for_each ref (sorted str_ltb (elements files)))
    as (st2 & n2 & -> & Hst2); [|exact Hst|].
  { intros pf _. by apply check_file_keeps. }
  apply keeps_for_each; [|done]. intros act Hin.
  apply scan_activity_keeps; [done|].
  rewrite sorted_perm in Hin. apply elem_of_elements in Hin.
  destruct (Hclass act) as (_ & Hpages). apply Hpages in Hin. tauto.
Qed.

(** The loops of [scan_all] return, whatever the site does, and the
    invariant holds of their final state. *)
Lemma scan_loop_total (courses : list (str * str)) (ref : datetime) (n : Net) :
  ∃ st n', scan_loop courses ref n = (Ok st, n')
           ∧ scan_all courses ref n = (Ok (sorted key_ltb (found st)), n')
           ∧ scan_inv ref st.
Proof.
  destruct (keeps_for_each ref courses (scan_course ref)
              (λ c _, scan_course_keeps ref c)
              {| found := []; seen_files := ∅; lookups := [] |} n)
    as (st & n' & Hrun & Hst).
  { constructor; simpl; [set_solver | constructor | done | constructor]. }
  exists st, n'. unfold scan_all, scan_loop, bind. by rewrite Hrun.
Qed.

End Scan.

(** ** C2: the order of the report *)








(** Sorting a list whose elements all satisfy [P], with a comparison
    that behaves as an order on such elements. *)
Section Insertion.
Context {A : Type} (cmp : A → A → bool) (P : A → Prop).
Hypothesis cmp_asym : ∀ x y, P x → P y → cmp x y = true → cmp y x = false.
Hypothesis cmp_le_trans :
  ∀ x y z, P x → P y → P z →
           cmp y x = false → cmp z y = false → cmp z x = false.




End Insertion.


Section Order.
Context {U : Unicode} {L : Urllib} {B : Bs4} {E : EmailUtils}
        {T : ZoneInfo} {R : Requests}.











End Order.


(** ** C1, C3, C8: what the scan reports *)







Section Report.
Context {U : Unicode} {L : Urllib} {B : Bs4} {E : EmailUtils}
        {T : ZoneInfo} {R : Requests}.





End Report.

(** ** The scan of the small site

    The notes are linked from the course page and from the folder, and
    are looked up once; the old sheet is not later than the watermark;
    the assignment page does not answer. *)

Example small_site_report :
  match (scan_all COURSES WATERMARK START).1 with
  | Ok items => map (λ x, (file_name x, link x)) items
  | Raised => []
  end
  = [(u "sheet 1.pdf", FOLDER_PAGE); (u "notes.pdf", NOTES_URL);
     (u "slides.pdf", SLIDES_VIEW)].
Proof. vm_compute. reflexivity. Qed.

Example small_site_lookups :
  match (scan_loop COURSES WATERMARK START).1 with
  | Ok st => map (λ e, (lk_file e, bool_decide (is_Some (lk_record e))))
                 (lookups st)
  | Raised => []
  end
  = [(NOTES_URL, true); (BOTH_URL, false); (SHEET_URL, true);
     (OLD_URL, false); (SLIDES_URL, true)].
Proof. vm_compute. reflexivity. Qed.

(** * Further properties of the engine *)

(** ** Trimming *)

Section Trimming.
Context {U : Unicode}.

Lemma lstrip_blank_app (a b : str) : lstrip a = [] → lstrip (a ++ b) = lstrip b.
Proof.
  induction a as [|c a IH]; simpl; [done|].
  destruct (isspace c); [apply IH | done].
Qed.

Lemma lstrip_length (s : str) : (length (lstrip s) ≤ length s)%nat.
Proof.
  induction s as [|c s IH]; simpl; [done|].
  destruct (isspace c); simpl; lia.
Qed.

Lemma rstrip_length (s : str) : (length (rstrip s) ≤ length s)%nat.
Proof.
  unfold rstrip. rewrite length_reverse.
  etransitivity; [apply lstrip_length|]. by rewrite length_reverse.
Qed.

Lemma strip_length (s : str) : (length (strip s) ≤ length s)%nat.
Proof.
  unfold strip. etransitivity; [apply lstrip_length | apply rstrip_length].
Qed.

(** What [rstrip] leaves of a text that starts with a character that is
    not white space starts with that character. *)
Lemma rstrip_cons_solid (c : N) (m : str) :
  isspace c = false → ∃ m', rstrip (c :: m) = c :: m'.
Proof.
  intros Hc. destruct (decide (rstrip m = [])) as [Hm|Hm].
  - exists []. unfold rstrip in *. rewrite reverse_cons.
    rewrite lstrip_blank_app.
    + simpl. by rewrite Hc.
    + apply (f_equal reverse) in Hm. by rewrite reverse_involutive in Hm.
  - exists (rstrip m). change (c :: m) with ([c] ++ m).
    by rewrite (rstrip_app [c] m Hm).
Qed.

(** Trimming on the left and trimming on the right commute. *)
Lemma rstrip_lstrip (s : str) : rstrip (lstrip s) = lstrip (rstrip s).
Proof.
  induction s as [|c s IH]; [done|].
  cbn [lstrip]. destruct (isspace c) eqn:Hc.
  - rewrite IH. destruct (decide (rstrip s = [])) as [Hs|Hs].
    + rewrite Hs. simpl.
      assert (rstrip (c :: s) = []) as ->; [|done].
      unfold rstrip in *. rewrite reverse_cons, lstrip_blank_app.
      * simpl. by rewrite Hc.
      * apply (f_equal reverse) in Hs. by rewrite reverse_involutive in Hs.
    + change (c :: s) with ([c] ++ s).
      rewrite (rstrip_app [c] s Hs). simpl. by rewrite Hc.
  - destruct (rstrip_cons_solid c s Hc) as [m' Hm'].
    rewrite Hm'. simpl. by rewrite Hc.
Qed.

Lemma strip_idemp (s : str) : strip (strip s) = strip s.
Proof.
  unfold strip.
  by rewrite (rstrip_lstrip (rstrip s)), rstrip_idemp, lstrip_idemp.
Qed.

(** X1: the display name of a course never has white space around it
    and is never longer than the label it comes from. *)
Theorem course_display_name_is_trimmed (raw : str) :
  strip (_course_display_name raw) = _course_display_name raw
  ∧ (length (_course_display_name raw) ≤ length raw)%nat.
Proof.
  unfold _course_display_name, split1. cbv zeta.
  destruct (contains SEP (strip raw)); [|split; [apply strip_idemp | apply strip_length]].
  destruct (split_once SEP (strip raw)) as [[l r]|] eqn:Hsplit;
    [|split; [apply strip_idemp | apply strip_length]].
  destruct (fullmatch_d6 (strip l));
    [|split; [apply strip_idemp | apply strip_length]].
  split; [apply strip_idemp|].
  apply split_once_sound in Hsplit as [Hs _].
  pose proof (strip_length raw) as Hraw. rewrite Hs in Hraw.
  rewrite !length_app in Hraw.
  pose proof (strip_length r). lia.
Qed.

End Trimming.

Section Labels.
Context {U : Unicode} {B : Bs4}.

(** X2: every pair the label-aware scrape returns holds an address that
    contains [pluginfile.php] and a label without white space around it,
    so the guard of line 567 never skips a pair and the second trimming
    of line 580 changes nothing; the addresses are the file links of the
    page in document order. *)
Theorem extract_pluginfile_links_trimmed (html : str) :
  Forall (λ p, contains PLUGINFILE_PHP p.1 = true ∧ strip p.2 = p.2)
         (_extract_pluginfile_links_from_html html)
  ∧ map fst (_extract_pluginfile_links_from_html html)
    = filter (λ h, contains PLUGINFILE_PHP h = true) (hrefs html).
Proof.
  split; [|apply extract_pluginfile_links_hrefs].
  rewrite extract_pluginfile_links_eq. apply Forall_forall.
  intros [href txt] (a & [= -> ->] & Ha)%list_elem_of_fmap.
  apply list_elem_of_filter in Ha as [Ha _]. simpl.
  split; [done | apply strip_idemp].
Qed.

End Labels.

(** ** One step of the scan *)

Section Steps.
Context {U : Unicode} {L : Urllib} {B : Bs4} {E : EmailUtils}
        {T : ZoneInfo} {R : Requests}.

(** The log entry [check_file] writes for the answer [lm]. *)
Definition entry_of (reference_dt : datetime)
    (raw display course pf fname lnk : str) (o : origin)
    (lm : option datetime) : lookup :=
  {| lk_course := course; lk_file := pf; lk_origin := o; lk_time := lm;
     lk_record :=
       match lm with
       | Some t =>
           if dt_gtb t reference_dt then
             Some {| course_name_raw := raw; course_name_display := display;
                     file_name := fname; last_modified_il := t; link := lnk |}
           else None
       | None => None
       end |}.

(** The state after a lookup has been logged. *)
Definition logged (st : scan_state) (e : lookup) : scan_state :=
  {| found := found st ++ option_list (lk_record e);
     seen_files := {[lk_key e]} ∪ seen_files st;
     lookups := lookups st ++ [e] |}.

Lemma check_file_seen (ref : datetime) (raw display course pf fname lnk : str)
    (o : origin) (st : scan_state) (n : Net) :
  (course, pf) ∈ seen_files st →
  check_file ref raw display course pf fname lnk o st n = (Ok st, n).
Proof.
  intros Hseen. unfold check_file. cbv zeta.
  by rewrite bool_decide_eq_true_2.
Qed.

Lemma check_file_new (ref : datetime) (raw display course pf fname lnk : str)
    (o : origin) (st : scan_state) (n : Net) :
  (course, pf) ∉ seen_files st →
  ∃ lm n',
    _get_last_modified_for_file pf n = (Ok lm, n')
    ∧ check_file ref raw display course pf fname lnk o st n
      = (Ok (logged st (entry_of ref raw display course pf fname lnk o lm)),
         n').
Proof.
  intros Hnew. unfold check_file. cbv zeta.
  rewrite bool_decide_eq_false_2 by done.
  destruct (get_last_modified_total pf n) as (lm & n' & Hlm & _).
  exists lm, n'. split; [done|]. unfold bind. rewrite Hlm.
  unfold logged, entry_of, ret. simpl.
  destruct lm as [t|]; [destruct (dt_gtb t ref)|]; simpl;
    by rewrite ?app_nil_r.
Qed.

(** Resolving a resource view always returns, and returns only
    addresses that contain [pluginfile.php]. *)
Lemma resolve_total (view_url : str) (n : Net) :
  ∃ urls n',
    _resolve_resource_view_to_file view_url n = (Ok urls, n')
    ∧ Forall (λ pf, contains PLUGINFILE_PHP pf = true) urls.
Proof.
  unfold _resolve_resource_view_to_file, bind. cbv zeta.
  destruct (http_head_follow_total (redirect_probe_url view_url) n)
    as (r & n1 & -> & _).
  destruct (scrape_view_spec view_url n1) as (html & n2 & _ & Hs).
  assert (Forall (λ pf, contains PLUGINFILE_PHP pf = true) (scraped html))
    as Hfiles.
  { destruct html as [[|c h]|]; simpl; try constructor.
    apply Forall_forall. intros x Hx.
    apply (proj1 (keep_first_elem_of _ x)) in Hx.
    unfold file_hrefs in Hx. by apply list_elem_of_filter in Hx as [? _]. }
  destruct r as [r|]; [|by eauto].
  destruct (negb (is_empty (url r)) && contains PLUGINFILE_PHP (url r))
    eqn:Hfast; [|by eauto].
  apply andb_true_iff in Hfast as [_ Hfile].
  exists [url r], n1. split; [done|]. by constructor.
Qed.

(** A piece of the scan returns and keeps [I]. *)
Definition holds (I : scan_state → Prop)
    (body : scan_state → M scan_state) : Prop :=
  ∀ st n, I st → ∃ st' n', body st n = (Ok st', n') ∧ I st'.

Lemma holds_for_each {A} (I : scan_state → Prop) (l : list A)
    (body : A → scan_state → M scan_state) :
  (∀ x, x ∈ l → holds I (body x)) → holds I (for_each l body).
Proof.
  induction l as [|x l IH]; intros Hbody; simpl.
  - intros st n Hst. by exists st, n.
  - intros st n Hst.
    destruct (Hbody x ltac:(left) st n Hst) as (st1 & n1 & Hrun & Hst1).
    destruct (IH (λ y Hy, Hbody y ltac:(by right)) st1 n1 Hst1)
      as (st2 & n2 & Hrun2 & Hst2).
    exists st2, n2. unfold bind. by rewrite Hrun.
Qed.

Lemma safe_filename_nonempty (url : str) :
  url ≠ [] → _safe_filename_from_url url ≠ [].
Proof.
  intros Hurl. unfold _safe_filename_from_url. cbv zeta.
  by destruct (strip (unquote (after_last SLASH (urlparse_path url)))).
Qed.

Lemma normalize_nonempty (act pf : str) :
  act ≠ [] → pf ≠ [] → _normalize_link_for_print act pf ≠ [].
Proof.
  intros Hact Hpf. unfold _normalize_link_for_print. by destruct (_ || _).
Qed.

Lemma activity_link_nonempty (act : str) :
  is_activity_link act = true → act ≠ [].
Proof. by intros Hact ->. Qed.

Section Entries.
Variable P : lookup → Prop.

(** Every entry of the log satisfies [P]. *)
Definition log_all (st : scan_state) : Prop := Forall P (lookups st).

Lemma check_file_log (ref : datetime) (raw display course pf fname lnk : str)
    (o : origin) :
  (∀ lm, P (entry_of ref raw display course pf fname lnk o lm)) →
  holds log_all (check_file ref raw display course pf fname lnk o).
Proof.
  intros HP st n Hst.
  destruct (decide ((course, pf) ∈ seen_files st)) as [Hseen|Hnew].
  - exists st, n. by rewrite check_file_seen.
  - destruct (check_file_new ref raw display course pf fname lnk o st n Hnew)
      as (lm & n' & _ & ->).
    eexists _, _. split; [done|]. unfold log_all, logged. simpl.
    apply Forall_app. split; [done|]. constructor; [apply HP | constructor].
Qed.

(** The entries of one course satisfy [P] when each path's entry does. *)
Lemma scan_course_log (ref : datetime) (raw course : str) :
  (∀ pf lm, contains PLUGINFILE_PHP pf = true →
            P (entry_of ref raw (_course_display_name raw) course pf
                 (_safe_filename_from_url pf) pf Direct lm)) →
  (∀ act pf lm, act ≠ [] → contains PLUGINFILE_PHP pf = true →
                P (entry_of ref raw (_course_display_name raw) course pf
                     (_safe_filename_from_url pf)
                     (_normalize_link_for_print act pf) (ViaResource act)
                     lm)) →
  (∀ act pf txt lm, act ≠ [] → contains PLUGINFILE_PHP pf = true →
                    P (entry_of ref raw (_course_display_name raw) course pf
                         (if is_empty (strip txt)
                          then _safe_filename_from_url pf else strip txt)
                         (_normalize_link_for_print act pf) (ViaPage act txt)
                         lm)) →
  holds log_all (scan_course ref (raw, course)).
Proof.
  intros Hdirect Hresource Hpage st n Hst.
  unfold scan_course, bind. cbv zeta.
  destruct (http_get_html_total course n) as (html & n1 & -> & _).
  destruct html as [[|c h]|]; [by exists st, n1| |by exists st, n1].
  pose proof (links_classified (c :: h)) as Hclass. cbv zeta in Hclass.
  destruct (_extract_activity_links_from_course_html (c :: h))
    as [files pages].
  edestruct (holds_for_each log_all (sorted str_ltb (elements files)))
    as (st2 & n2 & -> & Hst2); [|exact Hst|].
  { intros pf Hin. apply check_file_log. intros lm. apply Hdirect.
    rewrite sorted_perm in Hin. apply elem_of_elements in Hin.
    destruct (Hclass pf) as (Hfiles & _). apply Hfiles in Hin as [_ Hfile].
    by apply (contains_piece (u "moodle.tau.ac.il/") _ (u "/")). }
  apply holds_for_each; [|done]. intros act Hin.
  rewrite sorted_perm in Hin. apply elem_of_elements in Hin.
  destruct (Hclass act) as (_ & Hpages). apply Hpages in Hin as (_ & _ & Hact).
  pose proof (activity_link_nonempty act Hact) as Hne.
  unfold scan_activity. destruct (contains RESOURCE_VIEW act).
  - intros st3 n3 Hst3. unfold scan_resource, bind.
    destruct (resolve_total act n3) as (urls & n4 & -> & Hurls).
    apply holds_for_each; [|done]. intros pf Hpf.
    apply check_file_log. intros lm. apply Hresource; [done|].
    rewrite Forall_forall in Hurls. by apply Hurls.
  - intros st3 n3 Hst3. unfold scan_page, bind.
    destruct (http_get_html_total act n3) as (html & n4 & -> & _).
    destruct html as [[|c' h']|]; [by exists st3, n4| |by exists st3, n4].
    apply holds_for_each; [|done]. intros [pf txt] _.
    destruct (contains PLUGINFILE_PHP pf) eqn:Hpf; simpl.
    + apply check_file_log. intros lm. by apply Hpage.
    + intros st5 n5 Hst5. by exists st5, n5.
Qed.

End Entries.

End Steps.

(** ** What the scan asks for, and what it reports *)

Section ScanFacts.
Context {U : Unicode} {L : Urllib} {B : Bs4} {E : EmailUtils}
        {T : ZoneInfo} {R : Requests}.

(** A lookup for a file address of a listed course; the record it led
    to, if any, carries that course's label and display name, a name and
    a link. *)
Definition listed (courses : list (str * str)) (e : lookup) : Prop :=
  contains PLUGINFILE_PHP (lk_file e) = true
  ∧ ∃ raw, (raw, lk_course e) ∈ courses
           ∧ ∀ item, lk_record e = Some item →
                     course_name_raw item = raw
                     ∧ course_name_display item = _course_display_name raw
                     ∧ file_name item ≠ []
                     ∧ link item ≠ [].

Lemma entry_listed (courses : list (str * str)) (ref : datetime)
    (raw course pf fname lnk : str) (o : origin) (lm : option datetime) :
  (raw, course) ∈ courses →
  contains PLUGINFILE_PHP pf = true →
  fname ≠ [] → lnk ≠ [] →
  listed courses
    (entry_of ref raw (_course_display_name raw) course pf fname lnk o lm).
Proof.
  intros Hin Hpf Hname Hlnk. split; [done|]. exists raw. split; [done|].
  intros item. unfold entry_of. simpl.
  destruct lm as [t|]; [|done]. destruct (dt_gtb t ref); [|done].
  by intros [= <-].
Qed.

Lemma scan_loop_listed (courses : list (str * str)) (ref : datetime)
    (n : Net) :
  ∃ st n', scan_loop courses ref n = (Ok st, n')
           ∧ Forall (listed courses) (lookups st).
Proof.
  apply (holds_for_each (log_all (listed courses)) courses (scan_course ref));
    [|constructor].
  intros [raw course] Hin.
  assert (∀ pf, contains PLUGINFILE_PHP pf = true → pf ≠ []) as Hne.
  { intros pf Hpf. by apply (contains_nonempty PLUGINFILE_PHP). }
  apply scan_course_log.
  - intros pf lm Hpf. apply entry_listed; auto.
    by apply safe_filename_nonempty, Hne.
  - intros act pf lm Hact Hpf. apply entry_listed; auto.
    + by apply safe_filename_nonempty, Hne.
    + by apply normalize_nonempty, Hne.
  - intros act pf txt lm Hact Hpf. apply entry_listed; auto.
    + destruct (strip txt) eqn:Htxt; simpl; [|done].
      by apply safe_filename_nonempty, Hne.
    + by apply normalize_nonempty, Hne.
Qed.

(** X3: the scan asks for the modification time only of addresses that
    contain [pluginfile.php], and only on behalf of a course of the list
    it was given. *)
Theorem scan_all_asks_for_files_only (courses : list (str * str))
    (reference_dt : datetime) (n : Net) :
  ∃ items st n',
    scan_all courses reference_dt n = (Ok items, n')
    ∧ scan_loop courses reference_dt n = (Ok st, n')
    ∧ Forall (λ e, contains PLUGINFILE_PHP (lk_file e) = true
                   ∧ ∃ raw, (raw, lk_course e) ∈ courses)
             (lookups st).
Proof.
  destruct (scan_loop_listed courses reference_dt n) as (st & n' & Hloop & Hl).
  exists (sorted key_ltb (found st)), st, n'.
  split; [unfold scan_all, bind; by rewrite Hloop|]. split; [done|].
  eapply Forall_impl; [exact Hl|].
  intros e (Hfile & raw & Hin & _). eauto.
Qed.

(** X4: every record the scan returns has a name and a link that are
    not empty, carries the label of a course of the list, and its
    display name is the one derived from that label. *)
Theorem scan_all_records_complete (courses : list (str * str))
    (reference_dt : datetime) (n : Net) :
  ∃ items n',
    scan_all courses reference_dt n = (Ok items, n')
    ∧ Forall (λ item,
                file_name item ≠ []
                ∧ link item ≠ []
                ∧ course_name_display item
                  = _course_display_name (course_name_raw item)
                ∧ ∃ course_url, (course_name_raw item, course_url) ∈ courses)
             items.
Proof.
  destruct (scan_loop_listed courses reference_dt n) as (st & n' & Hloop & Hl).
  destruct (scan_loop_total courses reference_dt n)
    as (st0 & n0 & Hloop0 & Hall & Hst).
  rewrite Hloop in Hloop0. injection Hloop0 as <- <-.
  exists (sorted key_ltb (found st)), n'. split; [done|].
  rewrite sorted_perm, (inv_found _ _ Hst). apply Forall_forall.
  intros item (e & He & Hitem)%list_elem_of_omap.
  rewrite Forall_forall in Hl.
  destruct (Hl e He) as (_ & raw & Hin & Hrec).
  destruct (Hrec item Hitem) as (<- & Hdisplay & Hname & Hlink).
  repeat split; eauto.
Qed.

(** X5: a course whose page does not arrive, or arrives empty, is passed
    over: the scan goes on with the remaining courses as if it had not
    been listed. *)
Theorem scan_all_skips_failed_course (raw course_url : str)
    (courses : list (str * str)) (reference_dt : datetime) (n n1 : Net)
    (html : option str) :
  _http_get_html course_url n = (Ok html, n1) →
  truthy html = false →
  scan_all ((raw, course_url) :: courses) reference_dt n
  = scan_all courses reference_dt n1.
Proof.
  intros Hget Hfalsy.
  assert (∀ st, scan_course reference_dt (raw, course_url) st n = (Ok st, n1))
    as Hcourse.
  { intros st. unfold scan_course, bind. cbv zeta. rewrite Hget.
    by destruct html as [[|c h]|]. }
  unfold scan_all, scan_loop. cbn [for_each]. unfold bind.
  by rewrite Hcourse.
Qed.

(** X6: a modification time is only ever read from a response whose
    status is not a 4xx or 5xx one and that carries a non-empty
    [Last-Modified] header; an error response gives no time even when it
    carries the header. *)
Theorem modified_time_only_from_success (file_url : str) (n n' : Net)
    (d : datetime) :
  _get_last_modified_for_file file_url n = (Ok (Some d), n') →
  ∃ r, _http_head_follow file_url n = (Ok (Some r), n')
       ∧ ¬ (400 ≤ status_code r < 600)%Z
       ∧ truthy (py_or (headers r LAST_MODIFIED) (headers r last_modified))
         = true
       ∧ _parse_http_last_modified (headers r) = Ok (Some d).
Proof.
  unfold _get_last_modified_for_file, bind.
  destruct (_http_head_follow file_url n) as [[[r|]|] n1] eqn:Hhead;
    try done.
  unfold response_ok.
  destruct ((400 <=? status_code r)%Z && (status_code r <? 600)%Z) eqn:Hs;
    simpl; [done|].
  unfold lift. intros [= Hparse <-]. exists r.
  split; [done|]. split; [lia|]. split; [|done].
  unfold _parse_http_last_modified in Hparse. cbv zeta in Hparse.
  by destruct (py_or _ _) as [[|c v]|].
Qed.

End ScanFacts.

(** On the small site: an address that does not answer listed as a
    course before the real one, and the notes. *)
Lemma scan_all_skips_failed_course_witness :
  scan_all ((u "Closed", ASSIGN_PAGE) :: COURSES) WATERMARK START
  = scan_all COURSES WATERMARK
      {| net_world := 1%nat; net_calls := [CallGet ASSIGN_PAGE false] |}.
Proof.
  apply (scan_all_skips_failed_course (u "Closed") ASSIGN_PAGE COURSES
           WATERMARK START _ None); reflexivity.
Defined.

Lemma modified_time_only_from_success_witness :
  ∃ r, _http_head_follow NOTES_URL START
       = (Ok (Some r),
          {| net_world := 1%nat; net_calls := [CallHead NOTES_URL] |})
       ∧ status_code r = 200%Z.
Proof.
  assert (_get_last_modified_for_file NOTES_URL START
          = (Ok (Some {| dt_wall := JAN_1_2024 + 2 * DAY + 12 * HOUR;
                         dt_tz := TzIL; dt_fold := false |}%Z),
             Build_Net (R:=requests_site) 1%nat [CallHead NOTES_URL]))
    as Hrun by (vm_compute; reflexivity).
  destruct (modified_time_only_from_success NOTES_URL START _ _ Hrun)
    as (r & Hhead & _).
  exists r. split; [exact Hhead|].
  vm_compute in Hhead. by injection Hhead as <-.
Defined.

(** ** The watermark only filters *)

Section Watermark.
Context {U : Unicode} {L : Urllib} {B : Bs4} {E : EmailUtils}
        {T : ZoneInfo} {R : Requests}.

(** Two log entries for the same lookup with the same answer; when both
    led to a record, it is the same record. *)
Definition same_lookup (e1 e2 : lookup) : Prop :=
  lk_key e1 = lk_key e2
  ∧ lk_origin e1 = lk_origin e2
  ∧ lk_time e1 = lk_time e2
  ∧ ∀ i1 i2, lk_record e1 = Some i1 → lk_record e2 = Some i2 → i1 = i2.

(** Two states of the scan that have seen and looked up the same. *)
Definition same_trace (st1 st2 : scan_state) : Prop :=
  seen_files st1 = seen_files st2
  ∧ Forall2 same_lookup (lookups st1) (lookups st2).

(** Two pieces of the scan that, from states with the same trace, issue
    the same requests and end in states with the same trace. *)
Definition agree (body1 body2 : scan_state → M scan_state) : Prop :=
  ∀ st1 st2 n, same_trace st1 st2 →
    ∃ st1' st2' n',
      body1 st1 n = (Ok st1', n') ∧ body2 st2 n = (Ok st2', n')
      ∧ same_trace st1' st2'.

Lemma agree_ret : agree ret ret.
Proof. intros st1 st2 n Hsame. by exists st1, st2, n. Qed.

Lemma agree_for_each {A} (l : list A)
    (body1 body2 : A → scan_state → M scan_state) :
  (∀ x, agree (body1 x) (body2 x)) →
  agree (for_each l body1) (for_each l body2).
Proof.
  intros Hbody. induction l as [|x l IH]; simpl; [apply agree_ret|].
  intros st1 st2 n Hsame.
  destruct (Hbody x st1 st2 n Hsame) as (a1 & a2 & n1 & H1 & H2 & Ha).
  destruct (IH a1 a2 n1 Ha) as (b1 & b2 & n2 & H3 & H4 & Hb).
  exists b1, b2, n2. unfold bind. by rewrite H1, H2.
Qed.

Lemma check_file_agree (ref1 ref2 : datetime)
    (raw display course pf fname lnk : str) (o : origin) :
  agree (check_file ref1 raw display course pf fname lnk o)
        (check_file ref2 raw display course pf fname lnk o).
Proof.
  intros st1 st2 n [Hseen Hlog].
  destruct (decide ((course, pf) ∈ seen_files st1)) as [Hin|Hnew].
  - exists st1, st2, n. rewrite !check_file_seen by congruence. done.
  - destruct (check_file_new ref1 raw display course pf fname lnk o st1 n Hnew)
      as (lm & n' & Hlm & ->).
    rewrite Hseen in Hnew.
    destruct (check_file_new ref2 raw display course pf fname lnk o st2 n Hnew)
      as (lm2 & n2 & Hlm2 & ->).
    rewrite Hlm in Hlm2. injection Hlm2 as <- <-.
    eexists _, _, _. split; [done|]. split; [done|].
    split; simpl; [by rewrite Hseen|].
    apply Forall2_app; [done|]. constructor; [|constructor].
    repeat split; try done. simpl.
    destruct lm as [t|]; [|done].
    destruct (dt_gtb t ref1), (dt_gtb t ref2); try done.
    by intros i1 i2 [= <-] [= <-].
Qed.

Lemma scan_course_agree (ref1 ref2 : datetime) (course : str * str) :
  agree (scan_course ref1 course) (scan_course ref2 course).
Proof.
  destruct course as [raw course]. intros st1 st2 n Hsame.
  unfold scan_course, bind. cbv zeta.
  destruct (http_get_html_total course n) as (html & n1 & -> & _).
  destruct html as [[|c h]|];
    [by exists st1, st2, n1| |by exists st1, st2, n1].
  destruct (_extract_activity_links_from_course_html (c :: h))
    as [files pages].
  destruct (agree_for_each (sorted str_ltb (elements files))
              (scan_pluginfile ref1 raw (_course_display_name raw) course)
              (scan_pluginfile ref2 raw (_course_display_name raw) course)
              (λ pf, check_file_agree ref1 ref2 _ _ _ _ _ _ _)
              st1 st2 n1 Hsame) as (a1 & a2 & n2 & -> & -> & Ha).
  apply agree_for_each; [|done]. intros act.
  unfold scan_activity. destruct (contains RESOURCE_VIEW act).
  - intros b1 b2 m Hb. unfold scan_resource, bind.
    destruct (resolve_total act m) as (urls & m' & -> & _).
    apply agree_for_each; [|done]. intros pf. apply check_file_agree.
  - intros b1 b2 m Hb. unfold scan_page, bind.
    destruct (http_get_html_total act m) as (html & m' & -> & _).
    destruct html as [[|c' h']|];
      [by exists b1, b2, m'| |by exists b1, b2, m'].
    apply agree_for_each; [|done]. intros [pf txt].
    destruct (contains PLUGINFILE_PHP pf); simpl;
      [apply check_file_agree | apply agree_ret].
Qed.

(** The records of the second of two runs with the same trace are those
    of the first that are later than the second watermark, when the
    second watermark is not before the first on the Israel clock. *)
Lemma found_filtered (ref1 ref2 : datetime) (l1 l2 : list lookup) :
  dt_tz ref1 = TzIL → dt_tz ref2 = TzIL →
  (dt_wall ref1 ≤ dt_wall ref2)%Z →
  Forall2 same_lookup l1 l2 →
  Forall (lookup_ok ref1) l1 → Forall (lookup_ok ref2) l2 →
  omap lk_record l2
  = filter (λ item, dt_gtb (last_modified_il item) ref2 = true)
           (omap lk_record l1).
Proof.
  intros Hz1 Hz2 Hle Hsame. induction Hsame as [|e1 e2 l1 l2 He _ IH];
    intros Hok1 Hok2; [done|].
  apply Forall_cons_1 in Hok1 as [Ho1 Hok1].
  apply Forall_cons_1 in Hok2 as [Ho2 Hok2].
  csimpl. rewrite (IH Hok1 Hok2). clear IH.
  destruct He as (_ & _ & Htime & Hrec).
  unfold lookup_ok in Ho1, Ho2. rewrite <- Htime in Ho2.
  assert (∀ t, dt_tz t = TzIL →
               dt_gtb t ref2 = true → dt_gtb t ref1 = true) as Hmono.
  { intros t Ht. unfold dt_gtb, dt_compare. rewrite Ht, Hz1, Hz2.
    destruct (Z.compare_spec (dt_wall t) (dt_wall ref2)); try done.
    destruct (Z.compare_spec (dt_wall t) (dt_wall ref1)); try done; lia. }
  destruct (lk_time e1) as [t|], (lk_record e1) as [i1|],
    (lk_record e2) as [i2|]; try done; csimpl.
  - destruct Ho1 as (_ & _ & Ht1 & _), Ho2 as (Hgt & _ & Ht2 & _).
    rewrite <- (Hrec i1 i2 eq_refl eq_refl) in *.
    rewrite filter_cons, decide_True; [done|]. by rewrite Ht1.
  - destruct Ho1 as (_ & _ & Ht1 & _).
    rewrite filter_cons, decide_False; [done|]. rewrite Ht1. congruence.
  - destruct Ho2 as (Hgt & Hzone & _). by rewrite (Hmono t Hzone Hgt) in Ho1.
Qed.

(** X7: the watermark does not change what the scan asks for.  Run from
    the same state of the world with two watermarks on the Israel clock,
    the later one issues the same requests, ends in the same world, and
    returns exactly those records of the earlier run that are later than
    it. *)
Theorem scan_all_watermark_filters (courses : list (str * str))
    (ref1 ref2 : datetime) (n : Net) :
  dt_tz ref1 = TzIL → dt_tz ref2 = TzIL →
  (dt_wall ref1 ≤ dt_wall ref2)%Z →
  ∃ items1 items2 n',
    scan_all courses ref1 n = (Ok items1, n')
    ∧ scan_all courses ref2 n = (Ok items2, n')
    ∧ items2 ≡ₚ filter (λ item, dt_gtb (last_modified_il item) ref2 = true)
                       items1.
Proof.
  intros Hz1 Hz2 Hle.
  destruct (agree_for_each courses (scan_course ref1) (scan_course ref2)
              (scan_course_agree ref1 ref2)
              {| found := []; seen_files := ∅; lookups := [] |}
              {| found := []; seen_files := ∅; lookups := [] |} n)
    as (st1 & st2 & n' & Hrun1 & Hrun2 & _ & Hlog).
  { split; [done | constructor]. }
  destruct (scan_loop_total courses ref1 n) as (a1 & m1 & Ha1 & _ & Hinv1).
  destruct (scan_loop_total courses ref2 n) as (a2 & m2 & Ha2 & _ & Hinv2).
  unfold scan_loop in Ha1, Ha2. rewrite Hrun1 in Ha1. rewrite Hrun2 in Ha2.
  injection Ha1 as <- <-. injection Ha2 as <- _.
  exists (sorted key_ltb (found st1)), (sorted key_ltb (found st2)), n'.
  unfold scan_all, scan_loop, bind. rewrite Hrun1, Hrun2.
  split; [done|]. split; [done|].
  rewrite !sorted_perm, (inv_found _ _ Hinv1), (inv_found _ _ Hinv2).
  by rewrite (found_filtered ref1 ref2 _ _ Hz1 Hz2 Hle Hlog
                (inv_ok _ _ Hinv1) (inv_ok _ _ Hinv2)).
Qed.

End Watermark.

(** On the small site a watermark one day later leaves the notes and the
    slides and drops the sheet. *)
Lemma scan_all_watermark_filters_witness :
  ∃ items1 items2 n',
    scan_all COURSES WATERMARK START = (Ok items1, n')
    ∧ scan_all COURSES
        {| dt_wall := JAN_1_2024 + 2 * DAY; dt_tz := TzIL; dt_fold := false |}%Z
        START = (Ok items2, n')
    ∧ length items1 = 3%nat ∧ length items2 = 2%nat.
Proof.
  destruct (scan_all_watermark_filters COURSES WATERMARK
              {| dt_wall := JAN_1_2024 + 2 * DAY; dt_tz := TzIL;
                 dt_fold := false |}%Z START eq_refl eq_refl)
    as (items1 & items2 & n' & H1 & H2 & _).
  - vm_compute. discriminate.
  - exists items1, items2, n'. split; [exact H1|]. split; [exact H2|].
    vm_compute in H1. vm_compute in H2.
    injection H1 as <- _. injection H2 as <- _. split; reflexivity.
Defined.

(** * Delivery: [telegram_send] and [telegram_send_many] *)

(** The Telegram endpoint behind [requests.post]: a post may answer or
    raise, and changes the world either way.  What the script prints is
    left out. *)
Class Telegram := {
  TelegramWorld : Type;
  (** [requests.post(url, json={"chat_id": chat_id, "text": text,
      "disable_web_page_preview": True}, timeout=30)]. *)
  requests_post : str → str → str → TelegramWorld → result unit * TelegramWorld
}.

(** A post: the address, the chat and the text. *)
Record Post : Type := {
  post_url : str;
  post_chat : str;
  post_text : str
}.

Definition NEWLINE : str := [10].
Definition API_PREFIX : str := Eval vm_compute in u "https://api.telegram.org/bot".
Definition API_SUFFIX : str := Eval vm_compute in u "/sendMessage".

(** Two posts in a row succeed; the third raises. *)
#[export] Instance telegram_two : Telegram := {|
  TelegramWorld := nat;
  requests_post := λ _ _ _ w,
    (if (w <? 2)%nat then Ok tt else Raised, S w)
|}.

Section Delivery.
Context {U : Unicode} {G : Telegram}.

(** The world of the endpoint and the posts issued so far, oldest
    first. *)
Record Outbox : Type := {
  out_world : TelegramWorld;
  out_posts : list Post
}.

Definition Tg (A : Type) : Type := Outbox → result A * Outbox.

Definition tg_ret {A} (a : A) : Tg A := λ o, (Ok a, o).

Definition tg_bind {A C} (m : Tg A) (k : A → Tg C) : Tg C :=
  λ o, match m o with
       | (Ok a, o') => k a o'
       | (Raised, o') => (Raised, o')
       end.

Fixpoint tg_for_each {A S} (l : list A) (body : A → S → Tg S) (st : S)
  : Tg S :=
  match l with
  | [] => tg_ret st
  | x :: l' => tg_bind (body x st) (tg_for_each l' body)
  end.

Definition do_post (url chat_id text : str) : Tg unit :=
  λ o, let '(r, w) := requests_post url chat_id text (out_world o) in
       (r, {| out_world := w;
              out_posts := out_posts o ++
                [{| post_url := url; post_chat := chat_id;
                    post_text := text |}] |}).

(** The two secrets, [os.environ.get(..., "")]. *)
Variables TELEGRAM_BOT_TOKEN TELEGRAM_CHAT_ID : str.

(** [telegram_send], lines 278-290. *)
Definition telegram_send (text : str) : Tg unit :=
  if is_empty TELEGRAM_BOT_TOKEN || is_empty TELEGRAM_CHAT_ID then tg_ret tt
  else
    let url := API_PREFIX ++ TELEGRAM_BOT_TOKEN ++ API_SUFFIX in
    do_post url TELEGRAM_CHAT_ID text.

Definition MAX_LEN : nat := 3800.

(** [telegram_send_many], lines 293-303. *)
Definition telegram_send_many (lines : list str) (header : str) : Tg unit :=
  let max_len := MAX_LEN in
  tg_bind
    (tg_for_each lines
       (λ line chunk,
          if (max_len <? length chunk + length line + 1)%nat then
            tg_bind (telegram_send chunk)
              (λ _, tg_ret ((header ++ NEWLINE) ++ line ++ NEWLINE))
          else tg_ret (chunk ++ line ++ NEWLINE))
       (header ++ NEWLINE))
    (λ chunk,
       if negb (is_empty (strip chunk)) then telegram_send chunk
       else tg_ret tt).

(** The messages [telegram_send_many] hands to [telegram_send], first to
    last, when it has [chunk] in hand and [lines] still to add. *)
Fixpoint chunks (header chunk : str) (lines : list str) : list str :=
  match lines with
  | [] => if negb (is_empty (strip chunk)) then [chunk] else []
  | line :: rest =>
      if (MAX_LEN <? length chunk + length line + 1)%nat then
        chunk :: chunks header ((header ++ NEWLINE) ++ line ++ NEWLINE) rest
      else chunks header (chunk ++ line ++ NEWLINE) rest
  end.

Definition messages (header : str) (lines : list str) : list str :=
  chunks header (header ++ NEWLINE) lines.

(** One [telegram_send] after another, until one raises. *)
Fixpoint send_all (msgs : list str) : Tg unit :=
  match msgs with
  | [] => tg_ret tt
  | m :: rest => tg_bind (telegram_send m) (λ _, send_all rest)
  end.

End Delivery.

Section DeliveryFacts.
Context {U : Unicode} {G : Telegram}.
Variables token chat : str.

Lemma send_many_chunks (header chunk : str) (lines : list str) (o : Outbox) :
  tg_bind
    (tg_for_each lines
       (λ line chunk,
          if (MAX_LEN <? length chunk + length line + 1)%nat then
            tg_bind (telegram_send token chat chunk)
              (λ _, tg_ret ((header ++ NEWLINE) ++ line ++ NEWLINE))
          else tg_ret (chunk ++ line ++ NEWLINE))
       chunk)
    (λ chunk,
       if negb (is_empty (strip chunk)) then telegram_send token chat chunk
       else tg_ret tt) o
  = send_all token chat (chunks header chunk lines) o.
Proof.
  revert chunk o. induction lines as [|line rest IH]; intros chunk o.
  - cbn [tg_for_each chunks]. unfold tg_bind at 1. unfold tg_ret at 1.
    destruct (negb (is_empty (strip chunk))); [|done].
    cbn [send_all]. unfold tg_bind, tg_ret.
    by destruct (telegram_send token chat chunk o) as [[[]|] o'].
  - cbn [tg_for_each chunks].
    destruct (MAX_LEN <? length chunk + length line + 1)%nat.
    + cbn [send_all].
      pose proof (IH ((header ++ NEWLINE) ++ line ++ NEWLINE)) as IH'.
      unfold tg_bind, tg_ret in *.
      destruct (telegram_send token chat chunk o) as [[[]|] o']; [|done].
      apply IH'.
    + rewrite <- IH. done.
Qed.

(** What [send_all] posts when both secrets are set: the messages in
    order up to the first post that raises. *)
Lemma send_all_posts (msgs : list str) (o : Outbox) :
  token ≠ [] → chat ≠ [] →
  ∃ k, (k ≤ length msgs)%nat
       ∧ out_posts (send_all token chat msgs o).2
         = out_posts o
           ++ map (λ m, {| post_url := API_PREFIX ++ token ++ API_SUFFIX;
                           post_chat := chat; post_text := m |})
                  (take k msgs)
       ∧ ((send_all token chat msgs o).1 = Ok tt → k = length msgs)
       ∧ (msgs ≠ [] → (0 < k)%nat).
Proof.
  intros Htoken Hchat. revert o.
  induction msgs as [|m rest IH]; intros o.
  - exists 0%nat. simpl. by rewrite app_nil_r.
  - cbn [send_all]. unfold tg_bind, telegram_send.
    destruct token as [|t0 tk]; [done|]. destruct chat as [|c0 ch]; [done|].
    cbn [is_empty orb]. unfold do_post. cbv zeta.
    destruct (requests_post _ _ m (out_world o)) as [[[]|] w].
    + destruct (IH {| out_world := w;
                      out_posts := out_posts o ++
                        [{| post_url := API_PREFIX ++ (t0 :: tk) ++ API_SUFFIX;
                            post_chat := c0 :: ch; post_text := m |}] |})
        as (k & Hk & Hposts & Hok & _).
      exists (S k). split; [simpl; lia|]. split; [|split].
      * rewrite Hposts. simpl. by rewrite <- app_assoc.
      * intros Hrun. simpl. f_equal. by apply Hok.
      * intros _. lia.
    + exists 1%nat. split; [simpl; lia|]. split; [|split; [done|]].
      * simpl. by destruct rest.
      * intros _. lia.
Qed.

(** The texts posted between two states of the outbox. *)
Definition posted (o o' : Outbox) : list str :=
  map post_text (drop (length (out_posts o)) (out_posts o')).

(** With both secrets set, [telegram_send_many] posts the first [k] of
    its messages: all of them when it returns normally, at least one
    when there is one. *)
Lemma send_many_posted (lines : list str) (header : str) (o : Outbox) :
  token ≠ [] → chat ≠ [] →
  ∃ k, (k ≤ length (messages header lines))%nat
       ∧ out_posts (telegram_send_many token chat lines header o).2
         = out_posts o
           ++ map (λ m, {| post_url := API_PREFIX ++ token ++ API_SUFFIX;
                           post_chat := chat; post_text := m |})
                  (take k (messages header lines))
       ∧ posted o (telegram_send_many token chat lines header o).2
         = take k (messages header lines)
       ∧ ((telegram_send_many token chat lines header o).1 = Ok tt →
          k = length (messages header lines))
       ∧ (messages header lines ≠ [] → (0 < k)%nat).
Proof.
  intros Htoken Hchat. unfold telegram_send_many, messages, posted.
  cbv zeta. rewrite send_many_chunks.
  destruct (send_all_posts (chunks header (header ++ NEWLINE) lines) o
              Htoken Hchat) as (k & Hk & Hposts & Hok & Hpos).
  exists k. repeat (split; [done|]). split; [|done].
  rewrite Hposts, drop_app_length, map_map. simpl. apply map_id.
Qed.

(** X8: [telegram_send_many] posts the messages of [messages], in order
    and to the chat of the secrets, and stops at the first post that
    raises; when it returns normally every message was posted.  When a
    secret is missing it posts nothing and returns normally. *)
Theorem telegram_send_many_posts (lines : list str) (header : str)
    (o : Outbox) :
  (token ≠ [] → chat ≠ [] →
   ∃ k, (k ≤ length (messages header lines))%nat
        ∧ out_posts (telegram_send_many token chat lines header o).2
          = out_posts o
            ++ map (λ m, {| post_url := API_PREFIX ++ token ++ API_SUFFIX;
                            post_chat := chat; post_text := m |})
                   (take k (messages header lines))
        ∧ ((telegram_send_many token chat lines header o).1 = Ok tt →
           k = length (messages header lines)))
  ∧ (token = [] ∨ chat = [] →
     telegram_send_many token chat lines header o = (Ok tt, o)).
Proof.
  split.
  - intros Htoken Hchat.
    destruct (send_many_posted lines header o Htoken Hchat)
      as (k & Hk & Hposts & _ & Hok & _).
    by exists k.
  - unfold telegram_send_many, messages. cbv zeta.
    rewrite send_many_chunks. intros Hmissing.
    assert (∀ text, telegram_send token chat text = tg_ret tt) as Hsend.
    { intros text. unfold telegram_send.
      destruct Hmissing as [-> | ->]; [done|].
      by rewrite orb_true_r. }
    induction (chunks header (header ++ NEWLINE) lines) as [|m rest IH];
      [done|].
    cbn [send_all]. unfold tg_bind. rewrite Hsend. exact IH.
Qed.

(** The text of a message after its header line. *)
Definition body (header msg : str) : str := drop (length header + 1) msg.

Lemma lstrip_blank_iff (s : str) :
  Forall (λ c, isspace c = true) (lstrip s) ↔ Forall (λ c, isspace c = true) s.
Proof.
  induction s as [|c s IH]; simpl; [done|].
  destruct (isspace c) eqn:Hc; [|done].
  rewrite IH. split; [by constructor | by intros [_ ?]%Forall_cons_1].
Qed.

Lemma lstrip_nil_iff (s : str) :
  lstrip s = [] ↔ Forall (λ c, isspace c = true) s.
Proof.
  induction s as [|c s IH]; simpl; [done|].
  destruct (isspace c) eqn:Hc.
  - rewrite IH. split; [by constructor | by intros [_ ?]%Forall_cons_1].
  - split; [done|]. intros [? _]%Forall_cons_1. congruence.
Qed.

(** A text trims to nothing exactly when it is all white space. *)
Lemma strip_nil_iff (s : str) :
  strip s = [] ↔ Forall (λ c, isspace c = true) s.
Proof.
  unfold strip. rewrite <- rstrip_lstrip. unfold rstrip.
  rewrite <- lstrip_blank_iff. split.
  - intros Hs. apply Forall_reverse. apply lstrip_nil_iff.
    apply (f_equal reverse) in Hs. by rewrite reverse_involutive in Hs.
  - intros Hs. apply Forall_reverse, lstrip_nil_iff in Hs. by rewrite Hs.
Qed.

Lemma strip_nonblank_app (a b : str) : strip a ≠ [] → strip (a ++ b) ≠ [].
Proof.
  rewrite !strip_nil_iff. intros Ha Hab. apply Ha.
  by apply Forall_app in Hab as [? _].
Qed.

Lemma chunks_bodies (header cbody : str) (lines : list str) :
  strip header ≠ [] →
  concat (map (body header) (chunks header (header ++ NEWLINE ++ cbody) lines))
  = cbody ++ concat (map (λ line, line ++ NEWLINE) lines).
Proof.
  intros Hheader. revert cbody.
  assert (∀ b, body header (header ++ NEWLINE ++ b) = b) as Hbody.
  { intros b. unfold body. rewrite drop_app_add. done. }
  induction lines as [|line rest IH]; intros cbody; cbn [chunks].
  - destruct (strip (header ++ NEWLINE ++ cbody)) eqn:Hs;
      [by apply strip_nonblank_app in Hs|].
    cbn [is_empty negb map concat]. by rewrite Hbody, !app_nil_r.
  - destruct (MAX_LEN <? _)%nat.
    + cbn [map concat]. rewrite Hbody.
      rewrite <- (app_assoc header NEWLINE), IH.
      by rewrite <- !app_assoc.
    + rewrite <- !app_assoc, IH. cbn [map concat].
      by rewrite <- !app_assoc.
Qed.

Lemma chunks_headed (header cbody : str) (lines : list str) :
  Forall (λ m, ∃ b, m = header ++ NEWLINE ++ b)
         (chunks header (header ++ NEWLINE ++ cbody) lines).
Proof.
  revert cbody. induction lines as [|line rest IH]; intros cbody;
    cbn [chunks].
  - destruct (negb _); repeat constructor. eauto.
  - destruct (MAX_LEN <? _)%nat.
    + constructor; [eauto|].
      rewrite <- (app_assoc header NEWLINE). apply IH.
    + rewrite <- !app_assoc. apply IH.
Qed.

Lemma chunks_bound (header chunk : str) (lines : list str) :
  (length chunk ≤ MAX_LEN)%nat →
  Forall (λ line, (length header + length line + 2 ≤ MAX_LEN)%nat) lines →
  Forall (λ m, (length m ≤ MAX_LEN)%nat) (chunks header chunk lines).
Proof.
  intros Hchunk Hlines. revert chunk Hchunk.
  induction Hlines as [|line rest Hline _ IH]; intros chunk Hchunk;
    cbn [chunks].
  - destruct (negb _); [constructor; [done | constructor] | constructor].
  - destruct (Nat.ltb_spec MAX_LEN (length chunk + length line + 1)).
    + constructor; [done|]. apply IH.
      rewrite !length_app. simpl. lia.
    + apply IH. rewrite !length_app. simpl. lia.
Qed.

(** With a header that is not blank, every message starts with the
    header line, and the texts after the header lines, put end to end,
    are the lines in order, each followed by a line break. *)
Lemma messages_carry_the_lines (header : str) (lines : list str) :
  strip header ≠ [] →
  Forall (λ m, ∃ b, m = header ++ NEWLINE ++ b) (messages header lines)
  ∧ concat (map (body header) (messages header lines))
    = concat (map (λ line, line ++ NEWLINE) lines).
Proof.
  intros Hheader. unfold messages.
  rewrite <- (app_nil_r (header ++ NEWLINE)), <- app_assoc. split.
  - apply chunks_headed.
  - by rewrite chunks_bodies.
Qed.

Lemma messages_within_limit (header : str) (lines : list str) :
  (length header + 1 ≤ MAX_LEN)%nat →
  Forall (λ line, (length header + length line + 2 ≤ MAX_LEN)%nat) lines →
  Forall (λ m, (length m ≤ MAX_LEN)%nat) (messages header lines).
Proof.
  intros Hheader Hlines. apply chunks_bound; [|done].
  rewrite length_app. simpl. lia.
Qed.

Lemma messages_long_first (header line : str) (rest : list str) :
  (MAX_LEN < length header + length line + 2)%nat →
  messages header (line :: rest)
  = (header ++ NEWLINE)
      :: chunks header ((header ++ NEWLINE) ++ line ++ NEWLINE) rest.
Proof.
  intros Hlong. unfold messages. cbn [chunks].
  destruct (Nat.ltb_spec MAX_LEN (length (header ++ NEWLINE) + length line + 1))
    as [_|Hfit]; [done|].
  rewrite length_app in Hfit. simpl in Hfit. lia.
Qed.

Lemma chunks_long_chunk (header chunk next : str) (rest : list str) :
  (MAX_LEN < length chunk)%nat →
  chunks header chunk (next :: rest)
  = chunk :: chunks header ((header ++ NEWLINE) ++ next ++ NEWLINE) rest.
Proof.
  intros Hlong. cbn [chunks].
  destruct (Nat.ltb_spec MAX_LEN (length chunk + length next + 1))
    as [_|Hfit]; [done | lia].
Qed.

(** X9: with both secrets set and a header that is not blank, a call of
    [telegram_send_many] that returns normally has posted messages that
    each start with the header line, and whose texts after the header
    lines, put end to end, are the lines in order, each followed by a
    line break: no line is lost, repeated, split or reordered. *)
Theorem telegram_send_many_carries_lines (lines : list str) (header : str)
    (o : Outbox) :
  token ≠ [] → chat ≠ [] →
  strip header ≠ [] →
  (telegram_send_many token chat lines header o).1 = Ok tt →
  Forall (λ m, ∃ b, m = header ++ NEWLINE ++ b)
         (posted o (telegram_send_many token chat lines header o).2)
  ∧ concat (map (body header)
              (posted o (telegram_send_many token chat lines header o).2))
    = concat (map (λ line, line ++ NEWLINE) lines).
Proof.
  intros Htoken Hchat Hheader Hok.
  destruct (send_many_posted lines header o Htoken Hchat)
    as (k & _ & _ & -> & Hall & _).
  rewrite (Hall Hok), firstn_all.
  by apply messages_carry_the_lines.
Qed.

(** X10: with both secrets set, when the header line, and each line
    together with the header line, fits in 3800 characters, no message
    [telegram_send_many] posts is longer than 3800 characters. *)
Theorem telegram_send_many_within_limit (lines : list str) (header : str)
    (o : Outbox) :
  token ≠ [] → chat ≠ [] →
  (length header + 1 ≤ MAX_LEN)%nat →
  Forall (λ line, (length header + length line + 2 ≤ MAX_LEN)%nat) lines →
  Forall (λ m, (length m ≤ MAX_LEN)%nat)
         (posted o (telegram_send_many token chat lines header o).2).
Proof.
  intros Htoken Hchat Hheader Hlines.
  destruct (send_many_posted lines header o Htoken Hchat)
    as (k & _ & _ & -> & _).
  by apply Forall_take, messages_within_limit.
Qed.

(** X11: with both secrets set, a first line too long to fit in 3800
    characters with the header line is neither cut nor dropped: the
    header line is posted alone first, and, when the call returns
    normally and more lines follow, the long line is posted next in a
    message of its own that is longer than 3800 characters. *)
Theorem telegram_send_many_long_first_line (line : str) (rest : list str)
    (header : str) (o : Outbox) :
  token ≠ [] → chat ≠ [] →
  (MAX_LEN < length header + length line + 2)%nat →
  (∃ more, posted o (telegram_send_many token chat (line :: rest) header o).2
           = (header ++ NEWLINE) :: more)
  ∧ ((telegram_send_many token chat (line :: rest) header o).1 = Ok tt →
     rest ≠ [] →
     ∃ more, posted o (telegram_send_many token chat (line :: rest) header o).2
             = (header ++ NEWLINE)
                 :: ((header ++ NEWLINE) ++ line ++ NEWLINE) :: more
             ∧ (MAX_LEN < length ((header ++ NEWLINE) ++ line ++ NEWLINE))%nat).
Proof.
  intros Htoken Hchat Hlong.
  destruct (send_many_posted (line :: rest) header o Htoken Hchat)
    as (k & _ & _ & -> & Hall & Hpos).
  rewrite (messages_long_first header line rest Hlong) in *.
  assert (length ((header ++ NEWLINE) ++ line ++ NEWLINE)
          = (length header + length line + 2)%nat) as Hlen.
  { rewrite !length_app. simpl. lia. }
  split.
  - destruct k as [|k]; [specialize (Hpos ltac:(done)); lia|].
    simpl. eauto.
  - intros Hok Hrest. rewrite (Hall Hok), firstn_all.
    destruct rest as [|next rest']; [done|].
    rewrite chunks_long_chunk by lia. eexists. split; [reflexivity | lia].
Qed.

End DeliveryFacts.

(** Nothing posted yet. *)
Definition OUTBOX : @Outbox telegram_two :=
  {| out_world := 0%nat; out_posts := [] |}.

(** A Telegram that accepts every post. *)
Definition telegram_up : Telegram := {|
  TelegramWorld := unit;
  requests_post := λ _ _ _ w, (Ok tt, w)
|}.

Definition OUTBOX_UP : @Outbox telegram_up :=
  @Build_Outbox telegram_up tt [].

(** With both secrets set, two short lines go out in one message; a line
    of 3800 characters sends the header line alone and then goes out in a
    message of its own. *)
Lemma telegram_send_many_posts_witness :
  out_posts
    (telegram_send_many (u "token") (u "chat") [u "a"; u "b"] (u "H")
       OUTBOX).2
  = [{| post_url := u "https://api.telegram.org/bottoken/sendMessage";
        post_chat := u "chat";
        post_text := u "H" ++ [10] ++ u "a" ++ [10] ++ u "b" ++ [10] |}].
Proof.
  assert (u "token" ≠ []) as Htoken
    by (intros H; vm_compute in H; discriminate H).
  assert (u "chat" ≠ []) as Hchat
    by (intros H; vm_compute in H; discriminate H).
  destruct (proj1 (telegram_send_many_posts (u "token") (u "chat")
                     [u "a"; u "b"] (u "H") OUTBOX) Htoken Hchat)
    as (k & _ & Hposts & Hall).
  rewrite Hposts, (Hall eq_refl). reflexivity.
Defined.

Lemma telegram_send_many_carries_lines_witness :
  concat (map (body (u "H"))
            (posted OUTBOX
               (telegram_send_many (u "token") (u "chat") [u "a"; u "b"]
                  (u "H") OUTBOX).2))
  = u "a" ++ [10] ++ u "b" ++ [10].
Proof.
  assert (u "token" ≠ []) as Htoken
    by (intros H; vm_compute in H; discriminate H).
  assert (u "chat" ≠ []) as Hchat
    by (intros H; vm_compute in H; discriminate H).
  assert (strip (u "H") ≠ []) as Hheader
    by (intros H; vm_compute in H; discriminate H).
  rewrite (proj2 (telegram_send_many_carries_lines (u "token") (u "chat")
                    [u "a"; u "b"] (u "H") OUTBOX Htoken Hchat Hheader
                    eq_refl)).
  reflexivity.
Defined.

Lemma telegram_send_many_within_limit_witness :
  Forall (λ m, (length m ≤ MAX_LEN)%nat)
         (posted OUTBOX
            (telegram_send_many (u "token") (u "chat") [u "a"; u "b"]
               (u "H") OUTBOX).2).
Proof.
  assert (u "token" ≠ []) as Htoken
    by (intros H; vm_compute in H; discriminate H).
  assert (u "chat" ≠ []) as Hchat
    by (intros H; vm_compute in H; discriminate H).
  apply (telegram_send_many_within_limit (u "token") (u "chat")
           [u "a"; u "b"] (u "H") OUTBOX Htoken Hchat).
  - vm_compute. lia.
  - repeat constructor; vm_compute; lia.
Defined.

Lemma telegram_send_many_long_first_line_witness :
  ∃ more,
    posted OUTBOX_UP
      (telegram_send_many (u "token") (u "chat")
         [replicate 3800 97; u "b"] (u "H") OUTBOX_UP).2
    = (u "H" ++ [10]) :: ((u "H" ++ [10]) ++ replicate 3800 97 ++ [10]) :: more.
Proof.
  assert (u "token" ≠ []) as Htoken
    by (intros H; vm_compute in H; discriminate H).
  assert (u "chat" ≠ []) as Hchat
    by (intros H; vm_compute in H; discriminate H).
  assert (MAX_LEN < length (u "H") + length (replicate 3800 97) + 2)%nat
    as Hlong by (rewrite length_replicate; vm_compute; lia).
  assert ((telegram_send_many (u "token") (u "chat")
             [replicate 3800 97; u "b"] (u "H") OUTBOX_UP).1 = Ok tt)
    as Hok by (vm_compute; reflexivity).
  assert ([u "b"] ≠ []) as Hrest by discriminate.
  destruct (proj2 (telegram_send_many_long_first_line (u "token") (u "chat")
                     (replicate 3800 97) [u "b"] (u "H") OUTBOX_UP
                     Htoken Hchat Hlong) Hok Hrest) as (more & Hposted & _).
  exists more. exact Hposted.
Defined.

(** * The course list *)

(** A Selenium [WebElement] as [get_courses] uses it: [a.text] and
    [a.get_attribute("href")]; either may raise (a stale element, a lost
    browser), and the attribute may be missing. *)
Record WebElement : Type := {
  el_text : result (option str);
  el_href : result (option str)
}.

Definition COURSE_VIEW_ID : str := Eval vm_compute in u "course/view.php?id=".

Section Courses.
Context {U : Unicode}.

(** What lines 499-502 append for one element, from its text and [href]:
    [(name, href)] when [name and href and "course/view.php?id=" in href]. *)
Definition course_of (text href : option str) : option (str * str) :=
  let name := strip (default [] text) in
  match href with
  | Some h =>
      if negb (is_empty name) && negb (is_empty h) && contains COURSE_VIEW_ID h
      then Some (name, h)
      else None
  | None => None
  end.

(** [get_courses], lines 497-502. *)
Fixpoint collect_courses (links : list WebElement) (courses : list (str * str))
  : result (list (str * str)) :=
  match links with
  | [] => Ok courses
  | a :: links' =>
      and_then (el_text a) (λ text,
      and_then (el_href a) (λ href,
        match course_of text href with
        | Some c => collect_courses links' (courses ++ [c])
        | None => collect_courses links' courses
        end))
  end.

(** [get_courses], lines 504-509. *)
Fixpoint uniq_courses (courses uniq : list (str * str)) (seen : gset str)
  : list (str * str) :=
  match courses with
  | [] => uniq
  | (n, h) :: courses' =>
      if decide (h ∈ seen) then uniq_courses courses' uniq seen
      else uniq_courses courses' (uniq ++ [(n, h)]) ({[h]} ∪ seen)
  end.

(** [get_courses], lines 496-510, from the elements [find_elements]
    returned. *)
Definition get_courses (links : list WebElement) : result (list (str * str)) :=
  and_then (collect_courses links [])
           (λ courses, Ok (uniq_courses courses [] ∅)).

(** The course an element stands for, when both reads answer. *)
Definition read_course (a : WebElement) : option (str * str) :=
  match el_text a, el_href a with
  | Ok text, Ok href => course_of text href
  | _, _ => None
  end.

Definition unreadable (a : WebElement) : Prop :=
  el_text a = Raised ∨ el_href a = Raised.

Lemma course_of_wellformed (text href : option str) (c : str * str) :
  course_of text href = Some c →
  c.1 ≠ [] ∧ strip c.1 = c.1 ∧ c.2 ≠ [] ∧ contains COURSE_VIEW_ID c.2 = true.
Proof.
  unfold course_of. destruct href as [h|]; [|done].
  destruct (is_empty (strip (default [] text))) eqn:Hname; [done|].
  destruct (is_empty h) eqn:Hh; [done|].
  destruct (contains COURSE_VIEW_ID h) eqn:Hc; [|done].
  intros [= <-]. simpl. split_and?; try done.
  - by destruct (strip (default [] text)).
  - apply strip_idemp.
  - by destruct h.
Qed.

Lemma collect_courses_ok (links : list WebElement) (acc cs : list (str * str)) :
  collect_courses links acc = Ok cs →
  cs = acc ++ omap read_course links ∧ Forall (λ a, ¬ unreadable a) links.
Proof.
  revert acc. induction links as [|a links IH]; intros acc; csimpl.
  - intros [= <-]. by rewrite app_nil_r.
  - unfold read_course at 1.
    assert (el_text a ≠ Raised → el_href a ≠ Raised → ¬ unreadable a)
      as Hreadable by (by intros ?? [|]).
    destruct (el_text a) as [text|]; [|done]. simpl.
    destruct (el_href a) as [href|]; [|done]. simpl.
    destruct (course_of text href) as [c|]; intros [-> Hall]%IH.
    + rewrite <- app_assoc. split; [done|]. constructor; [|done].
      by apply Hreadable.
    + split; [done|]. constructor; [|done]. by apply Hreadable.
Qed.

Lemma collect_courses_raised (links : list WebElement) (acc : list (str * str)) :
  collect_courses links acc = Raised ↔ Exists unreadable links.
Proof.
  revert acc. induction links as [|a links IH]; intros acc; simpl.
  - split; [done | by intros ?%Exists_nil].
  - rewrite Exists_cons. unfold unreadable at 1.
    destruct (el_text a) as [text|]; simpl; [|by split; [left; left|]].
    destruct (el_href a) as [href|]; simpl; [|by split; [left; right|]].
    destruct (course_of text href) as [c|]; rewrite IH; naive_solver.
Qed.

Lemma uniq_courses_spec (cs uniq : list (str * str)) (seen : gset str) :
  (∀ h, h ∈ seen ↔ h ∈ uniq.*2) →
  NoDup uniq.*2 →
  NoDup (uniq_courses cs uniq seen).*2
  ∧ ∃ extra, uniq_courses cs uniq seen = uniq ++ extra
      ∧ sublist extra cs
      ∧ ∀ n h, (n, h) ∈ extra ↔
               (h ∉ uniq.*2)
               ∧ ∃ before after, cs = before ++ (n, h) :: after
                                 ∧ (h ∉ before.*2).
Proof.
  revert uniq seen. induction cs as [|[n h] cs IH]; intros uniq seen Hseen Hnd.
  - simpl. split; [done|]. exists []. rewrite app_nil_r.
    split_and?; [done | done |]. intros n h. split.
    + by intros ?%elem_of_nil.
    + intros (_ & before & after & Heq & _). by destruct before.
  - simpl. destruct (decide (h ∈ seen)) as [Hin|Hout].
    + destruct (IH uniq seen Hseen Hnd) as (Hnd' & extra & Heq & Hsub & Hiff).
      split; [done|]. exists extra. split_and?; [done | by apply sublist_cons |].
      intros n' h'. rewrite Hiff. apply Hseen in Hin. split.
      * intros (Hnew & before & after & -> & Hb). split; [done|].
        exists ((n, h) :: before), after. split; [done|].
        simpl. rewrite not_elem_of_cons. split; [|done].
        by intros ->.
      * intros (Hnew & before & after & Hcs & Hb). split; [done|].
        destruct before as [|b before]; simplify_eq/=; [done|].
        rewrite not_elem_of_cons in Hb. naive_solver.
    + assert (h ∉ uniq.*2) as Hout' by (by rewrite <- Hseen).
      destruct (IH (uniq ++ [(n, h)]) ({[h]} ∪ seen))
        as (Hnd' & extra & Heq & Hsub & Hiff).
      { intros h'. rewrite fmap_app, elem_of_app, elem_of_union, Hseen.
        simpl. rewrite list_elem_of_singleton. set_solver. }
      { rewrite fmap_app. apply NoDup_app. split_and?; [done | |].
        - intros h' Hh' ->%list_elem_of_singleton. done.
        - apply NoDup_singleton. }
      split; [done|]. exists ((n, h) :: extra).
      split_and?.
      * rewrite Heq, <- app_assoc. done.
      * by apply sublist_skip.
      * intros n' h'. rewrite elem_of_cons, Hiff, fmap_app, elem_of_app.
        simpl. rewrite list_elem_of_singleton. split.
        -- intros [[= -> ->]|(Hnew & before & after & -> & Hb)].
           ++ split; [done|]. exists [], cs. split; [done|]. by intros ?%elem_of_nil.
           ++ split; [naive_solver|].
              exists ((n, h) :: before), after. split; [done|].
              simpl. rewrite not_elem_of_cons. naive_solver.
        -- intros (Hnew & before & after & Hcs & Hb).
           destruct before as [|b before]; simplify_eq/=; [by left|].
           rewrite not_elem_of_cons in Hb. right. split; [naive_solver|].
           exists before, after. naive_solver.
Qed.

(** X12: when [get_courses] returns, every course it lists has a name
    that is not empty and carries no white space at either end, and a
    URL that contains "course/view.php?id="; and no two courses of the
    list have the same URL. *)
Theorem get_courses_wellformed (links : list WebElement)
    (courses : list (str * str)) :
  get_courses links = Ok courses →
  NoDup courses.*2
  ∧ Forall (λ c, c.1 ≠ [] ∧ strip c.1 = c.1
                 ∧ contains COURSE_VIEW_ID c.2 = true) courses.
Proof.
  unfold get_courses.
  destruct (collect_courses links []) as [cs|] eqn:Hcs; [|done].
  simpl. intros [= <-].
  apply collect_courses_ok in Hcs as [-> _]. simpl.
  destruct (uniq_courses_spec (omap read_course links) [] ∅)
    as (Hnd & extra & Heq & Hsub & _); [set_solver | constructor |].
  rewrite Heq in *. simpl in *. split; [done|].
  apply Forall_forall. intros c Hc.
  eapply elem_of_sublist in Hc; [|done].
  apply list_elem_of_omap in Hc as (a & _ & Ha).
  unfold read_course in Ha.
  destruct (el_text a) as [text|]; [|done].
  destruct (el_href a) as [href|]; [|done].
  apply course_of_wellformed in Ha. naive_solver.
Qed.

(** X13: when [get_courses] returns, its list is, in page order, the
    courses of the elements that qualify, each URL once and under the
    name of the first element that links to it: a pair is listed exactly
    when some element stands for it and no earlier element stands for a
    course with the same URL. *)
Theorem get_courses_first_link_wins (links : list WebElement)
    (courses : list (str * str)) :
  get_courses links = Ok courses →
  sublist courses (omap read_course links)
  ∧ ∀ n h, (n, h) ∈ courses ↔
           ∃ before a after,
             links = before ++ a :: after
             ∧ read_course a = Some (n, h)
             ∧ (h ∉ (omap read_course before).*2).
Proof.
  unfold get_courses.
  destruct (collect_courses links []) as [cs|] eqn:Hcs; [|done].
  simpl. intros [= <-].
  apply collect_courses_ok in Hcs as [-> _]. simpl.
  destruct (uniq_courses_spec (omap read_course links) [] ∅)
    as (_ & extra & Heq & Hsub & Hiff); [set_solver | constructor |].
  rewrite Heq. clear Heq. simpl. split; [done|].
  intros n h. rewrite Hiff. split.
  - intros (_ & before & after & Heq & Hb).
    clear Hsub Hiff. revert before Heq Hb.
    induction links as [|a links IH]; intros before Heq Hb.
    + by destruct before.
    + csimpl in Heq. destruct (read_course a) as [c|] eqn:Ha.
      * destruct before as [|b before]; simpl in Heq;
          injection Heq as Hc Heq; subst c.
        -- exists [], a, links. split_and?; [done | done |].
           by intros ?%elem_of_nil.
        -- simpl in Hb. rewrite not_elem_of_cons in Hb.
           destruct Hb as [Hne Hb].
           destruct (IH before Heq Hb) as (bf & a' & af & -> & Ha' & Hbf).
           exists (a :: bf), a', af. split_and?; [done | done |].
           csimpl. rewrite Ha. simpl. rewrite not_elem_of_cons. done.
      * destruct (IH before Heq Hb) as (bf & a' & af & -> & Ha' & Hbf).
        exists (a :: bf), a', af. split_and?; [done | done |].
        csimpl. by rewrite Ha.
  - intros (before & a & after & -> & Ha & Hb). split; [set_solver|].
    exists (omap read_course before), (omap read_course after).
    split; [|done]. rewrite omap_app. csimpl. by rewrite Ha.
Qed.

(** X14: [get_courses] catches nothing: it raises exactly when reading
    the text or the [href] of some element raises, however many courses
    the other elements name. *)
Theorem get_courses_raises_iff (links : list WebElement) :
  get_courses links = Raised ↔ Exists unreadable links.
Proof.
  unfold get_courses. rewrite <- (collect_courses_raised links []).
  by destruct (collect_courses links []).
Qed.

End Courses.

(** A course page with five course links: the first course twice, under
    two names; a link with no text; an element without [href]; and a
    second course. *)
Definition ALGEBRA_URL : str :=
  Eval vm_compute in u "https://moodle.tau.ac.il/course/view.php?id=1".
Definition LOGIC_URL : str :=
  Eval vm_compute in u "https://moodle.tau.ac.il/course/view.php?id=2".

Definition LINKS : list WebElement := [
  {| el_text := Ok (Some (u " Algebra ")); el_href := Ok (Some ALGEBRA_URL) |};
  {| el_text := Ok (Some (u "Algebra (again)"));
     el_href := Ok (Some ALGEBRA_URL) |};
  {| el_text := Ok None; el_href := Ok (Some LOGIC_URL) |};
  {| el_text := Ok (Some (u "Logic")); el_href := Ok None |};
  {| el_text := Ok (Some (u "Logic")); el_href := Ok (Some LOGIC_URL) |}
].

Lemma get_courses_wellformed_witness :
  get_courses LINKS = Ok [(u "Algebra", ALGEBRA_URL); (u "Logic", LOGIC_URL)]
  ∧ NoDup [ALGEBRA_URL; LOGIC_URL].
Proof.
  assert (get_courses LINKS
          = Ok [(u "Algebra", ALGEBRA_URL); (u "Logic", LOGIC_URL)]) as Hrun
    by (vm_compute; reflexivity).
  split; [exact Hrun|].
  exact (proj1 (get_courses_wellformed LINKS _ Hrun)).
Defined.

Lemma get_courses_first_link_wins_witness :
  get_courses LINKS = Ok [(u "Algebra", ALGEBRA_URL); (u "Logic", LOGIC_URL)]
  ∧ sublist [(u "Algebra", ALGEBRA_URL); (u "Logic", LOGIC_URL)]
            (omap read_course LINKS).
Proof.
  assert (get_courses LINKS
          = Ok [(u "Algebra", ALGEBRA_URL); (u "Logic", LOGIC_URL)]) as Hrun
    by (vm_compute; reflexivity).
  split; [exact Hrun|].
  exact (proj1 (get_courses_first_link_wins LINKS _ Hrun)).
Defined.
